(** * EventId renumbering scripts of SnapDog2

    A shallow embedding of [scripts/organize_eventids.py] and
    [scripts/reorganize_eventids.py], and the properties of the
    identifier-reassignment pipeline (classify, extract, allocate, rewrite,
    verify) established on it.

    Conventions of the embedding.
    - File contents and paths are ASCII text, a [list ascii]; the character
      classes [\s], [\d], [\w] are the ASCII ones (code points above 127 are
      in none of them).
    - Python integers that hold identifiers are parsed from [\d+] or are sums
      of non-negative numbers: they are modelled by [N].
    - A [dict] is an association list in insertion order, updated in place.
    - The file tree is an association list from relative paths to contents,
      listed in the order [rglob] yields them.  Every file is readable and
      writable; I/O exceptions are outside the model.
    - Console output is not modelled; writes to files are logged. *)

From Stdlib Require Import List String Ascii NArith Bool Arith Lia.
From Stdlib Require Import Sorted Permutation.
From Stdlib Require DecimalPos.
Import ListNotations.

Local Open Scope string_scope.
Local Open Scope list_scope.

(** ** Text *)

Abbreviation text := (list ascii).

Definition txt (s : string) : text := list_ascii_of_string s.

Definition nl : ascii := "010"%char.
Definition dquote : ascii := "034"%char.

Definition code (c : ascii) : N := N_of_ascii c.

Definition in_range (lo hi : N) (c : ascii) : bool :=
  ((lo <=? code c) && (code c <=? hi))%N.

(** [\s]: tab, line feed, vertical tab, form feed, carriage return, the four
    separators 0x1c-0x1f and the space. *)
Definition is_space (c : ascii) : bool :=
  in_range 9 13 c || in_range 28 31 c || (code c =? 32)%N.

(** [\d] *)
Definition is_digit (c : ascii) : bool := in_range 48 57 c.

(** [\w] *)
Definition is_word (c : ascii) : bool :=
  is_digit c || in_range 65 90 c || in_range 97 122 c || (code c =? 95)%N.

(** [.] without and with [re.DOTALL] *)
Definition is_dot (c : ascii) : bool := negb (Ascii.eqb c nl).
Definition is_any (_ : ascii) : bool := true.

Definition text_eqb (a b : text) : bool :=
  if list_eq_dec ascii_dec a b then true else false.

Fixpoint starts_with (p s : text) : bool :=
  match p, s with
  | [], _ => true
  | a :: p', b :: s' => Ascii.eqb a b && starts_with p' s'
  | _ :: _, [] => false
  end.

(** [p in s] on strings *)
Fixpoint contains (p s : text) : bool :=
  starts_with p s ||
  match s with
  | [] => false
  | _ :: s' => contains p s'
  end.

Definition ends_with (p s : text) : bool := starts_with (rev p) (rev s).

(** [sep.join(parts)] *)
Fixpoint join (sep : text) (parts : list text) : text :=
  match parts with
  | [] => []
  | [p] => p
  | p :: rest => p ++ sep ++ join sep rest
  end.

(** [s.split('\n')] *)
Fixpoint split_lines_aux (cur : text) (s : text) : list text :=
  match s with
  | [] => [rev cur]
  | c :: s' =>
      if Ascii.eqb c nl then rev cur :: split_lines_aux [] s'
      else split_lines_aux (c :: cur) s'
  end.

Definition split_lines (s : text) : list text := split_lines_aux [] s.

(** [s.lower()] and [s.strip()] *)
Definition lower_char (c : ascii) : ascii :=
  if in_range 65 90 c then ascii_of_N (code c + 32) else c.

Definition lower (s : text) : text := map lower_char s.

Fixpoint lstrip (s : text) : text :=
  match s with
  | c :: s' => if is_space c then lstrip s' else s
  | [] => []
  end.

Definition strip (s : text) : text := rev (lstrip (rev (lstrip s))).

(** ** Decimal numerals: [int(s)] and [str(n)] *)

Definition digit_val (c : ascii) : N := (code c - 48)%N.

Definition int_of (s : text) : N :=
  fold_left (fun acc c => (acc * 10 + digit_val c)%N) s 0%N.

Fixpoint digits_of_uint (d : Decimal.uint) : text :=
  match d with
  | Decimal.Nil => []
  | Decimal.D0 d => "0"%char :: digits_of_uint d
  | Decimal.D1 d => "1"%char :: digits_of_uint d
  | Decimal.D2 d => "2"%char :: digits_of_uint d
  | Decimal.D3 d => "3"%char :: digits_of_uint d
  | Decimal.D4 d => "4"%char :: digits_of_uint d
  | Decimal.D5 d => "5"%char :: digits_of_uint d
  | Decimal.D6 d => "6"%char :: digits_of_uint d
  | Decimal.D7 d => "7"%char :: digits_of_uint d
  | Decimal.D8 d => "8"%char :: digits_of_uint d
  | Decimal.D9 d => "9"%char :: digits_of_uint d
  end.

Definition str (n : N) : text := digits_of_uint (N.to_uint n).

(** ** Regular expressions

    The scripts' patterns are sequences of literal characters, greedy or lazy
    repetitions of one character class, capturing groups that are never
    nested, and [\b].  The matcher is the backtracking one of Python's [re]:
    alternatives are tried in priority order and the first success wins. *)

Module Re.

Inductive atom : Type :=
| Chr (c : ascii)                 (* a literal character *)
| Cls (p : ascii -> bool)         (* one character of a class *)
| Star (p : ascii -> bool)        (* greedy  p*  *)
| LazyStar (p : ascii -> bool)    (* lazy    p*? *)
| GOpen                           (* (  *)
| GClose                          (* )  *)
| WordB.                          (* \b *)

Definition regex := list atom.

Definition lit (s : string) : regex := map Chr (txt s).
Definition Plus (p : ascii -> bool) : regex := [Cls p; Star p].

(** State of one match attempt: the character before the current position,
    the number of characters consumed, the text of the group being captured
    (reversed) and the groups already closed, in order. *)
Record mstate : Type := MState {
  m_prev : option ascii;
  m_len : nat;
  m_cur : option text;
  m_groups : list text
}.

Definition start (prev : option ascii) : mstate :=
  MState prev 0 None [].

Definition eat (c : ascii) (st : mstate) : mstate :=
  MState (Some c) (S (m_len st)) (option_map (cons c) (m_cur st)) (m_groups st).

(** The state after consuming the characters of [u]. *)
Definition eats (u : text) (st : mstate) : mstate :=
  fold_left (fun st c => eat c st) u st.

Definition gopen (st : mstate) : mstate :=
  MState (m_prev st) (m_len st) (Some []) (m_groups st).

Definition gclose (st : mstate) : mstate :=
  MState (m_prev st) (m_len st) None
         (m_groups st ++ [rev (match m_cur st with Some g => g | None => [] end)]).

Definition word_before (prev : option ascii) : bool :=
  match prev with Some c => is_word c | None => false end.

Definition word_after (s : text) : bool :=
  match s with c :: _ => is_word c | [] => false end.

Definition at_boundary (prev : option ascii) (s : text) : bool :=
  xorb (word_before prev) (word_after s).

Fixpoint run (r : regex) : mstate -> text -> option mstate :=
  match r with
  | [] => fun st _ => Some st
  | a :: r' =>
      let k := run r' in
      match a with
      | Chr c => fun st s =>
          match s with
          | x :: s' => if Ascii.eqb x c then k (eat x st) s' else None
          | [] => None
          end
      | Cls p => fun st s =>
          match s with
          | x :: s' => if p x then k (eat x st) s' else None
          | [] => None
          end
      | Star p =>
          fix star (st : mstate) (s : text) {struct s} : option mstate :=
            match s with
            | x :: s' =>
                if p x then
                  match star (eat x st) s' with
                  | Some m => Some m
                  | None => k st s
                  end
                else k st s
            | [] => k st s
            end
      | LazyStar p =>
          fix lazy (st : mstate) (s : text) {struct s} : option mstate :=
            match k st s with
            | Some m => Some m
            | None =>
                match s with
                | x :: s' => if p x then lazy (eat x st) s' else None
                | [] => None
                end
            end
      | GOpen => fun st s => k (gopen st) s
      | GClose => fun st s => k (gclose st) s
      | WordB => fun st s => if at_boundary (m_prev st) s then k st s else None
      end
  end.

(** A match attempt at the current position. *)
Definition match_at (r : regex) (prev : option ascii) (s : text) : option mstate :=
  run r (start prev) s.

(** [re.search]: the groups of the leftmost match. *)
Fixpoint search_from (r : regex) (prev : option ascii) (s : text) : option (list text) :=
  match match_at r prev s with
  | Some m => Some (m_groups m)
  | None =>
      match s with
      | [] => None
      | c :: s' => search_from r (Some c) s'
      end
  end.

Definition search (r : regex) (s : text) : option (list text) :=
  search_from r None s.

(** [re.finditer] / [re.findall]: the groups of the successive
    non-overlapping matches.  [skip] counts the characters of the current
    match that are still to be passed over. *)
Fixpoint findall_from (r : regex) (prev : option ascii) (skip : nat) (s : text)
  : list (list text) :=
  match skip with
  | S k =>
      match s with
      | [] => []
      | c :: s' => findall_from r (Some c) k s'
      end
  | O =>
      match match_at r prev s with
      | Some m =>
          m_groups m ::
          match s with
          | [] => []
          | c :: s' => findall_from r (Some c) (pred (m_len m)) s'
          end
      | None =>
          match s with
          | [] => []
          | c :: s' => findall_from r (Some c) 0 s'
          end
      end
  end.

Definition findall (r : regex) (s : text) : list (list text) :=
  findall_from r None 0 s.

(** [re.sub]: every non-overlapping match is replaced by [repl] applied to
    its groups; the text between matches is copied. *)
Fixpoint sub_from (r : regex) (repl : list text -> text)
         (prev : option ascii) (skip : nat) (s : text) : text :=
  match skip with
  | S k =>
      match s with
      | [] => []
      | c :: s' => sub_from r repl (Some c) k s'
      end
  | O =>
      match match_at r prev s with
      | Some m =>
          repl (m_groups m) ++
          match s with
          | [] => []
          | c :: s' =>
              (match m_len m with O => [c] | S _ => [] end) ++
              sub_from r repl (Some c) (pred (m_len m)) s'
          end
      | None =>
          match s with
          | [] => []
          | c :: s' => c :: sub_from r repl (Some c) 0 s'
          end
      end
  end.

Definition sub (r : regex) (repl : list text -> text) (s : text) : text :=
  sub_from r repl None 0 s.

(** Group [i] (1-based) of a match. *)
Definition group (i : nat) (gs : list text) : text := nth (pred i) gs [].

End Re.

(** ** Dictionaries, paths and the file tree *)

Section Dict.
Context {K V : Type} (keq : K -> K -> bool).

Fixpoint dict_get (k : K) (d : list (K * V)) : option V :=
  match d with
  | [] => None
  | (k', v) :: d' => if keq k k' then Some v else dict_get k d'
  end.

(** [d[k] = v]: an existing key keeps its place. *)
Fixpoint dict_set (k : K) (v : V) (d : list (K * V)) : list (K * V) :=
  match d with
  | [] => [(k, v)]
  | (k', v') :: d' =>
      if keq k k' then (k', v) :: d' else (k', v') :: dict_set k v d'
  end.
End Dict.

Definition enumerate {A : Type} (l : list A) : list (nat * A) :=
  combine (seq 0 (List.length l)) l.

(** [l[i] = x] on a list; the scripts only use indices of existing lines. *)
Fixpoint list_set {A : Type} (l : list A) (i : nat) (x : A) : list A :=
  match l, i with
  | [], _ => []
  | _ :: l', O => x :: l'
  | y :: l', S i' => y :: list_set l' i' x
  end.

(** A path below the SnapDog2 directory, as its components. *)
Definition path : Type := list text.

Definition path_eqb (p q : path) : bool :=
  if list_eq_dec (list_eq_dec ascii_dec) p q then true else false.

(** [str(p.relative_to(snapdog_dir))] *)
Definition path_str (p : path) : text := join (txt "/") p.

Fixpoint text_compare (a b : text) : comparison :=
  match a, b with
  | [], [] => Eq
  | [], _ :: _ => Lt
  | _ :: _, [] => Gt
  | x :: a', y :: b' =>
      match N.compare (code x) (code y) with
      | Eq => text_compare a' b'
      | c => c
      end
  end.

(** Order of [Path] objects: component-wise. *)
Fixpoint path_compare (p q : path) : comparison :=
  match p, q with
  | [], [] => Eq
  | [], _ :: _ => Lt
  | _ :: _, [] => Gt
  | x :: p', y :: q' =>
      match text_compare x y with
      | Eq => path_compare p' q'
      | c => c
      end
  end.

Definition path_leb (p q : path) : bool :=
  match path_compare p q with Gt => false | _ => true end.

Section Sorting.
Context {A : Type} (leb : A -> A -> bool).

Fixpoint insert_sorted (x : A) (l : list A) : list A :=
  match l with
  | [] => [x]
  | y :: l' => if leb x y then x :: l else y :: insert_sorted x l'
  end.

(** [sorted(l)] *)
Definition sorted (l : list A) : list A := fold_right insert_sorted [] l.
End Sorting.

(** [list(set(l))]: the order of a Python set is unspecified; every use is
    followed by [sorted]. *)
Definition set_of (l : list N) : list N := nodup N.eq_dec l.

Definition tree : Type := list (path * text).

Definition read_text (p : path) (t : tree) : text :=
  match dict_get path_eqb p t with Some c => c | None => [] end.

Definition write_text (p : path) (c : text) (t : tree) : tree :=
  map (fun e => if path_eqb (fst e) p then (fst e, c) else e) t.

Inductive event : Type :=
| Wrote (p : path)      (* [write_text] on a source file *)
| WroteReport.          (* the mapping report [eventid-mappings.txt] *)

Record disk : Type := Disk {
  d_tree : tree;
  d_log : list event      (* oldest first *)
}.

Definition disk_write (p : path) (c : text) (d : disk) : disk :=
  Disk (write_text p c (d_tree d)) (d_log d ++ [Wrote p]).

(** The scan shared by both scripts: [rglob("*.cs")], without the paths
    whose string contains [obj] or [Tests], keeping the files that mention
    [LoggerMessage]. *)
Definition file_name (p : path) : text := last p [].

Definition full_str (snapdog_dir : text) (p : path) : text :=
  snapdog_dir ++ txt "/" ++ path_str p.

Definition scan (snapdog_dir : text) (t : tree) : list path :=
  map fst
    (filter (fun e =>
       ends_with (txt ".cs") (file_name (fst e))
       && negb (contains (txt "obj") (full_str snapdog_dir (fst e))
                || contains (txt "Tests") (full_str snapdog_dir (fst e)))
       && contains (txt "LoggerMessage") (snd e)) t).

Definition any_in (keys : list string) (s : text) : bool :=
  existsb (fun x => contains (txt x) s) keys.

Import Re.

Definition ws : atom := Star is_space.

(** The pattern [EventId\s*=\s*(\d+)], written r'EventId\s*=\s*(\d+)' in both scripts. *)
Definition named_pattern : regex :=
  lit "EventId" ++ [ws; Chr "="; ws; GOpen] ++ Plus is_digit ++ [GClose].

(** The formatted pattern of the rewriters: group 1 is [EventId\s*=\s*],
    followed by the decimal digits of [old_id] and [\b]. *)
Definition replace_pattern (old_id : N) : regex :=
  [GOpen] ++ lit "EventId" ++ [ws; Chr "="; ws; GClose]
  ++ map Chr (str old_id) ++ [WordB].

(** The replacement template: group 1 followed by the digits of [new_id]. *)
Definition replace_template (new_id : N) (gs : list text) : text :=
  group 1 gs ++ str new_id.

Definition ids_of (ms : list (list text)) : list N :=
  map (fun gs => int_of (group 1 gs)) ms.

(** ** scripts/organize_eventids.py *)

Module Organize.

Record world : Type := World {
  snapdog_dir : text;     (* str(snapdog_dir) *)
  files : tree            (* the files below it *)
}.

Definition categorize_file (file_path : path) : string :=
  let relative_path := path_str file_path in
  if any_in ["Audio"; "Media"; "LibVLC"; "Player"] relative_path then "Audio"
  else if any_in ["KNX"; "Knx"] relative_path then "KNX"
  else if any_in ["MQTT"; "Mqtt"] relative_path then "MQTT"
  else if any_in ["Api/"; "Controller"; "Health"] relative_path then "Web"
  else if any_in ["Performance"; "Metrics"] relative_path then "Performance"
  else if any_in ["Notification"; "Publisher"; "Handler"] relative_path
       then "Notifications"
  else if any_in ["Infrastructure"; "Integration"; "Service"; "Storage"]
                 relative_path then "Infrastructure"
  else "Core".

Definition category_bases : list (string * N) :=
  [("Core", 1000); ("Audio", 2000); ("KNX", 3000); ("MQTT", 4000);
   ("Web", 5000); ("Infrastructure", 6000); ("Performance", 8000);
   ("Notifications", 10000)]%N.

(** The table is indexed directly: [None] stands for the [KeyError]. *)
Definition get_category_base (category : string) : option N :=
  dict_get String.eqb category category_bases.

Record assignment : Type := Assignment {
  category : string;
  file_index : N;
  file_base : N
}.

Definition counter_get (c : string) (cs : list (string * N)) : N :=
  match dict_get String.eqb c cs with Some n => n | None => 0%N end.

(** The first loop of [main]: categories and file indices, in sorted path
    order.  [None] is an uncaught [KeyError]. *)
Fixpoint assign_files (cs_files : list path)
         (file_assignments : list (path * assignment))
         (category_counters : list (string * N))
  : option (list (path * assignment) * list (string * N)) :=
  match cs_files with
  | [] => Some (file_assignments, category_counters)
  | cs_file :: rest =>
      let category := categorize_file cs_file in
      let file_index := counter_get category category_counters in
      let category_counters :=
        dict_set String.eqb category (file_index + 1)%N category_counters in
      match get_category_base category with
      | None => None
      | Some base_id =>
          let file_base := (base_id + file_index * 100)%N in
          assign_files rest
            (dict_set path_eqb cs_file
               (Assignment category file_index file_base) file_assignments)
            category_counters
      end
  end.

(** The first match of the pattern on each line that has one. *)
Definition find_eventids (lines : list text) : list (nat * N) :=
  flat_map (fun e =>
    match search named_pattern (snd e) with
    | Some gs => [(fst e, int_of (group 1 gs))]
    | None => []
    end) (enumerate lines).

(** The dictionary comprehension: a repeated key keeps its first place and
    takes its last value. *)
Definition new_eventids_step (file_base : N) (d : list (N * N))
           (e : nat * (nat * N)) : list (N * N) :=
  let i := fst e in
  let old_id := snd (snd e) in
  dict_set N.eqb old_id (file_base + N.of_nat i)%N d.

Definition new_eventids_of (file_base : N) (eventids_in_file : list (nat * N))
  : list (N * N) :=
  fold_left (new_eventids_step file_base) (enumerate eventids_in_file) [].

Definition changes_needed (new_eventids : list (N * N)) : bool :=
  existsb (fun e => negb (fst e =? snd e)%N) new_eventids.

(** [new_eventids[old_id]]: every identifier looked up is a key, the
    dictionary being built from the same list. *)
Definition new_id_of (new_eventids : list (N * N)) (old_id : N) : N :=
  match dict_get N.eqb old_id new_eventids with Some n => n | None => 0%N end.

Definition apply_changes (new_eventids : list (N * N))
           (eventids_in_file : list (nat * N)) (lines : list text) : list text :=
  fold_left (fun lines e =>
    let new_id := new_id_of new_eventids (snd e) in
    let old_line := nth (fst e) lines [] in
    let new_line := sub (replace_pattern (snd e)) (replace_template new_id) old_line in
    list_set lines (fst e) new_line) eventids_in_file lines.

(** One iteration of the loop that reassigns the EventIds of a file. *)
Definition process_file (cs_file : path) (a : assignment) (d : disk) : disk :=
  let content := read_text cs_file (d_tree d) in
  let lines := split_lines content in
  let eventids_in_file := find_eventids lines in
  match eventids_in_file with
  | [] => d
  | _ :: _ =>
      let new_eventids := new_eventids_of (file_base a) eventids_in_file in
      if changes_needed new_eventids then
        disk_write cs_file
          (join [nl] (apply_changes new_eventids eventids_in_file lines)) d
      else d
  end.

Definition process_files (file_assignments : list (path * assignment)) (d : disk)
  : disk :=
  fold_left (fun d e => process_file (fst e) (snd e) d) file_assignments d.

(** The verification pass: every file of [cs_files] is read again. *)
Definition ids_on_disk (cs_files : list path) (t : tree) : list N :=
  flat_map (fun cs_file => ids_of (findall named_pattern (read_text cs_file t)))
           cs_files.

Definition memN (x : N) (l : list N) : bool := existsb (N.eqb x) l.

(** The loop over the matches: the set of values seen and the list of
    repeated ones. *)
Definition collect (ids : list N) : list N * list N :=
  fold_left (fun acc eventid =>
    let all_eventids := fst acc in
    let duplicates := snd acc in
    (if memN eventid all_eventids then all_eventids else eventid :: all_eventids,
     if memN eventid all_eventids then duplicates ++ [eventid] else duplicates))
    ids ([], []).

Definition duplicates (cs_files : list path) (t : tree) : list N :=
  snd (collect (ids_on_disk cs_files t)).

(** [main]: the exit status and the disk it leaves; [None] is an uncaught
    exception. *)
Definition main (w : world) : option (N * disk) :=
  let cs_files := scan (snapdog_dir w) (files w) in
  match assign_files (sorted path_leb cs_files) [] [] with
  | None => None
  | Some (file_assignments, _) =>
      let d := process_files file_assignments (Disk (files w) []) in
      match duplicates cs_files (d_tree d) with
      | _ :: _ => Some (1%N, d)
      | [] => Some (0%N, d)
      end
  end.

End Organize.

(** ** scripts/reorganize_eventids.py *)

Module Reorganize.

Record world : Type := World {
  snapdog_dir : text;       (* str(snapdog_dir) *)
  dir_exists : bool;        (* snapdog_dir.exists() *)
  files : tree;             (* the files below it *)
  response : text           (* the line typed at the confirmation prompt *)
}.

Definition categorize_file (file_path : path) : string :=
  let relative_path := path_str file_path in
  if any_in ["Audio"; "Media"; "Snapcast"; "LibVLC"; "Player"; "Sound"]
            relative_path then "Audio"
  else if any_in ["KNX"; "Knx"; "Building"; "Automation"] relative_path
       then "KNX"
  else if any_in ["MQTT"; "Mqtt"; "Message"; "Broker"; "Topic"] relative_path
       then "MQTT"
  else if any_in ["Web"; "Http"; "API"; "Controller"; "Endpoint"] relative_path
       then "Web"
  else if any_in ["Infrastructure"; "Host"; "Extension"; "Service"; "Integration"]
                 relative_path then "Infrastructure"
  else if any_in ["Performance"; "Metrics"; "Monitor"; "Stats"] relative_path
       then "Performance"
  else if any_in ["Notification"; "Event"; "Handler"; "Publisher"] relative_path
       then "Notifications"
  else if any_in ["Test"; "Mock"; "Fake"; "Stub"] relative_path then "Testing"
  else "Core".

Definition bases : list (string * N) :=
  [("Core", 1000); ("Audio", 2000); ("KNX", 3000); ("MQTT", 4000);
   ("Web", 5000); ("Infrastructure", 6000); ("Performance", 7000);
   ("Notifications", 8000); ("Testing", 9000)]%N.

(** [bases.get(category, 1000)] *)
Definition get_category_base (category : string) : N :=
  match dict_get String.eqb category bases with
  | Some b => b
  | None => 1000%N
  end.

Definition logger_open : regex := lit "[LoggerMessage(".

(** Single-line positional form with its three captured arguments: the
    number, [LogLevel.\w+] and a double-quoted message matched lazily without
    line feeds. *)
Definition single_line_pattern : regex :=
  logger_open ++ [ws; GOpen] ++ Plus is_digit ++ [GClose; ws; Chr ","; ws; GOpen]
  ++ lit "LogLevel." ++ Plus is_word ++ [GClose; ws; Chr ","; ws; GOpen;
       Chr dquote; LazyStar is_dot; Chr dquote; GClose; ws]
  ++ lit ")]".

(** Multi-line positional form: a line feed is required after the opening
    parenthesis, after each comma and before the closing one; [re.DOTALL]
    lets the message contain line feeds. *)
Definition multi_line_pattern : regex :=
  logger_open ++ [ws; Chr nl; ws; GOpen] ++ Plus is_digit
  ++ [GClose; ws; Chr ","; ws; Chr nl; ws; GOpen]
  ++ lit "LogLevel." ++ Plus is_word
  ++ [GClose; ws; Chr ","; ws; Chr nl; ws; GOpen;
       Chr dquote; LazyStar is_any; Chr dquote; GClose; ws; Chr nl; ws]
  ++ lit ")]".

(** [replace_single_line] and [replace_multi_line] build the same text. *)
Definition replace_positional (gs : list text) : text :=
  let event_id := group 1 gs in
  let log_level := group 2 gs in
  let message := group 3 gs in
  let full_log_level := txt "Microsoft.Extensions.Logging." ++ log_level in
  txt "[LoggerMessage(" ++ [nl]
  ++ txt "        EventId = " ++ event_id ++ txt "," ++ [nl]
  ++ txt "        Level = " ++ full_log_level ++ txt "," ++ [nl]
  ++ txt "        Message = " ++ message ++ [nl]
  ++ txt "    )]".

Definition standardize_loggermessage_format (content : text) : text :=
  let content := sub single_line_pattern replace_positional content in
  let content := sub multi_line_pattern replace_positional content in
  content.

Definition single_positional_pattern : regex :=
  logger_open ++ [ws; GOpen] ++ Plus is_digit ++ [GClose; ws; Chr ","].

Definition multi_positional_pattern : regex :=
  logger_open ++ [ws; Chr nl; ws; GOpen] ++ Plus is_digit ++ [GClose; ws; Chr ","].

(** [extract_eventids] on the text read from the file. *)
Definition extract_eventids_text (content : text) : list N :=
  let eventids := [] in
  let eventids := eventids ++ ids_of (findall named_pattern content) in
  let eventids := eventids ++ ids_of (findall single_positional_pattern content) in
  let eventids := eventids ++ ids_of (findall multi_positional_pattern content) in
  sorted N.leb (set_of eventids).

Definition extract_eventids (file_path : path) (t : tree) : list N :=
  extract_eventids_text (read_text file_path t).

Definition found (r : regex) (s : text) : bool :=
  match search r s with Some _ => true | None => false end.

Definition has_positional_format (content : text) : bool :=
  let single_pattern :=
    logger_open ++ [ws] ++ Plus is_digit ++ [ws; Chr ","; ws]
    ++ lit "LogLevel." ++ Plus is_word ++ [ws; Chr ","] in
  let multi_pattern :=
    logger_open ++ [ws; Chr nl; ws] ++ Plus is_digit
    ++ [ws; Chr ","; ws; Chr nl; ws]
    ++ lit "LogLevel." ++ Plus is_word ++ [ws; Chr ","] in
  if found single_pattern content then true
  else if found multi_pattern content then true
  else false.

(** [standardize_file_format]: the file is written only when its text
    changes. *)
Definition standardize_file_format (file_path : path) (d : disk) : bool * disk :=
  let content := read_text file_path (d_tree d) in
  let original_content := content in
  let standardized_content := standardize_loggermessage_format content in
  if negb (text_eqb standardized_content original_content) then
    (true, disk_write file_path standardized_content d)
  else (false, d).

(** The text [replace_eventids] writes: one [re.sub] per entry, each on the
    result of the previous one. *)
Definition replace_eventids_text (replacements : list (N * N)) (content : text)
  : text :=
  fold_left (fun content e =>
    sub (replace_pattern (fst e)) (replace_template (snd e)) content)
    replacements content.

(** [replace_eventids]: the file is always written. *)
Definition replace_eventids (file_path : path) (replacements : list (N * N))
           (d : disk) : bool * disk :=
  let content := read_text file_path (d_tree d) in
  (true, disk_write file_path (replace_eventids_text replacements content) d).

(** Phase 1 of [main]. *)
Definition phase1 (cs_files : list path) (d : disk) : disk :=
  fold_left (fun d file_path =>
    let content := read_text file_path (d_tree d) in
    if has_positional_format content
    then snd (standardize_file_format file_path d)
    else d) (sorted path_leb cs_files) d.

Record file_info : Type := FileInfo {
  category : string;
  eventids : list N;
  file_index : N
}.

Definition counter_get (c : string) (cs : list (string * N)) : N :=
  match dict_get String.eqb c cs with Some n => n | None => 0%N end.

(** The re-scan after standardization: [file_data] and
    [category_counters]. *)
Definition build_file_data (cs_files : list path) (t : tree)
  : list (path * file_info) * list (string * N) :=
  fold_left (fun acc file_path =>
    let file_data := fst acc in
    let category_counters := snd acc in
    let category := categorize_file file_path in
    let eventids := extract_eventids file_path t in
    match eventids with
    | [] => acc
    | _ :: _ =>
        (dict_set path_eqb file_path
           (FileInfo category (sorted N.leb eventids)
                     (counter_get category category_counters)) file_data,
         dict_set String.eqb category
           (counter_get category category_counters + 1)%N category_counters)
    end) (sorted path_leb cs_files) ([], []).

(** The [replacements] of one file. *)
Definition replacements_step (new_base : N) (replacements : list (N * N))
           (e : nat * N) : list (N * N) :=
  let i := fst e in
  let old_id := snd e in
  let new_id := (new_base + N.of_nat i)%N in
  if negb (old_id =? new_id)%N
  then dict_set N.eqb old_id new_id replacements
  else replacements.

Definition replacements_of (new_base : N) (old_eventids : list N) : list (N * N) :=
  fold_left (replacements_step new_base) (enumerate old_eventids) [].

Definition new_base_of (data : file_info) : N :=
  (get_category_base (category data) + file_index data * 100)%N.

(** The [changes] of the run: the files with a non-empty [replacements]. *)
Definition changes_of (file_data : list (path * file_info))
  : list (path * list (N * N)) :=
  fold_left (fun changes e =>
    let replacements := replacements_of (new_base_of (snd e)) (eventids (snd e)) in
    match replacements with
    | [] => changes
    | _ :: _ => dict_set path_eqb (fst e) replacements changes
    end) file_data [].

Definition open_report (d : disk) : disk :=
  Disk (d_tree d) (d_log d ++ [WroteReport]).

Definition apply_all (changes : list (path * list (N * N))) (d : disk) : disk :=
  fold_left (fun d e => snd (replace_eventids (fst e) (snd e) d)) changes d.

(** [main]: the exit status and the disk it leaves. *)
Definition main (w : world) : N * disk :=
  let d := Disk (files w) [] in
  if negb (dir_exists w) then (1%N, d)
  else
    let cs_files := scan (snapdog_dir w) (files w) in
    let d := phase1 cs_files d in
    let file_data := fst (build_file_data cs_files (d_tree d)) in
    let changes := changes_of file_data in
    match changes with
    | [] => (0%N, d)
    | _ :: _ =>
        let response := lower (strip (response w)) in
        if negb (text_eqb response (txt "y")) then (0%N, d)
        else (0%N, apply_all changes (open_report d))
    end.

End Reorganize.

(** ** Vocabulary of the statements *)

(** The value a file's identifier ends up with under a [replacements]
    dictionary: identifiers without an entry keep their value. *)
Definition assigned (replacements : list (N * N)) (old_id : N) : N :=
  match dict_get N.eqb old_id replacements with
  | Some new_id => new_id
  | None => old_id
  end.

(** The tokens of a text: its maximal runs of word characters, and each
    character outside [\w] on its own. *)
Definition flush (cur : text) : list text :=
  match cur with
  | [] => []
  | _ :: _ => [rev cur]
  end.

Fixpoint tokens_aux (cur : text) (s : text) : list text :=
  match s with
  | [] => flush cur
  | c :: s' =>
      if is_word c then tokens_aux (c :: cur) s'
      else flush cur ++ [c] :: tokens_aux [] s'
  end.

Definition tokens (s : text) : list text := tokens_aux [] s.

(** The text of a source file given by its lines. *)
Definition of_lines (l : list string) : text := join [nl] (map txt l).

(** Sample trees. *)
Definition repo : text := txt "/repo/SnapDog2".
Definition zone_cs : path := [txt "Domain"; txt "Zone.cs"].
Definition client_cs : path := [txt "Domain"; txt "Client.cs"].

Definition logger_line (n : N) : text :=
  txt "    [LoggerMessage(EventId = " ++ str n ++ txt ", Level = LogLevel.Debug)]".

(** A source text with the identifiers [first], [first + 1], ... on [count]
    lines. *)
Definition numbered_file (first : N) (count : nat) : text :=
  join [nl] (map (fun k => logger_line (first + N.of_nat k)) (seq 0 count)).

Definition descending_file : text :=
  of_lines ["[LoggerMessage(EventId = 9, Level = LogLevel.Debug)]";
            "[LoggerMessage(EventId = 5, Level = LogLevel.Debug)]"].

Definition overflow_tree : tree :=
  [(zone_cs, numbered_file 1 3); (client_cs, numbered_file 200 101)].

(** A file in the single-line positional form. *)
Definition positional_file : text :=
  txt "[LoggerMessage(7, LogLevel.Information, " ++ [dquote]
  ++ txt "Zone started" ++ [dquote] ++ txt ")]".

Definition standardized_file : text :=
  join [nl]
    [txt "[LoggerMessage(";
     txt "        EventId = 7,";
     txt "        Level = Microsoft.Extensions.Logging.LogLevel.Information,";
     txt "        Message = " ++ [dquote] ++ txt "Zone started" ++ [dquote];
     txt "    )]"].

(** An organised file. *)
Definition organized_file : text := numbered_file 1000 2.

(** The relation between a token and the token at the same place after a
    rewrite with the old identifiers [keys]: the token is kept, or it was
    exactly the numeral of one of the keys. *)
Definition token_kept_or_numeral (keys : list N) (w w' : text) : Prop :=
  w' = w \/ exists old_id, In old_id keys /\ w = str old_id.

(** A text with the identifier 12 and longer numbers that contain 12. *)
Definition mixed_numbers : text :=
  txt "[LoggerMessage(EventId = 12, Size = 1234)] v12 EventId = 1234 EventId = 512".

(** Two distinct identifiers, the first of which is to be renumbered to
    the value of the second. *)
Definition chain_file : text :=
  of_lines ["[LoggerMessage(EventId = 999, Level = LogLevel.Debug)]";
            "[LoggerMessage(EventId = 1000, Level = LogLevel.Debug)]"].

Definition merged_file (n : string) : text :=
  of_lines [("[LoggerMessage(EventId = " ++ n ++ ", Level = LogLevel.Debug)]")%string;
            ("[LoggerMessage(EventId = " ++ n ++ ", Level = LogLevel.Debug)]")%string].

(** An identifier written with leading zeros. *)
Definition leading_zero_file : text :=
  of_lines ["[LoggerMessage(EventId = 007, Level = LogLevel.Debug)]"].

(** A text with the three recognised forms, one value twice. *)
Definition mixed_forms_file : text :=
  join [nl]
    [txt "[LoggerMessage(EventId = 30, Level = LogLevel.Debug)]";
     txt "[LoggerMessage(7, LogLevel.Information, Template)]";
     txt "[LoggerMessage(";
     txt "    12,";
     txt "    LogLevel.Warning,";
     txt "    Template)]";
     txt "[LoggerMessage(EventId = 7, Level = LogLevel.Debug)]"].

(** The scenario of three Audio files with the identifiers 5, 5, 9, then
    100, then 3, 3, 3. *)
Definition audio_tree : tree :=
  [([txt "Audio"; txt "A.cs"], of_lines ["[LoggerMessage(EventId = 5)]";
                                         "[LoggerMessage(EventId = 5)]";
                                         "[LoggerMessage(EventId = 9)]"]);
   ([txt "Audio"; txt "B.cs"], of_lines ["[LoggerMessage(EventId = 100)]"]);
   ([txt "Audio"; txt "C.cs"], of_lines ["[LoggerMessage(EventId = 3)]";
                                         "[LoggerMessage(EventId = 3)]";
                                         "[LoggerMessage(EventId = 3)]"])].

(** ** Occurrences of an identifier in a text

    What the scripts' patterns are meant to find, stated on the text itself
    and without the matcher.  The digits of an occurrence are those of a
    decimal numeral [d] of the standard library, and its value is
    [N.of_uint d]. *)

Definition all (p : ascii -> bool) (u : text) : Prop :=
  Forall (fun c => p c = true) u.

(** The text does not go on with a character of the class. *)
Definition stops (p : ascii -> bool) (s : text) : Prop :=
  match s with
  | c :: _ => p c = false
  | [] => True
  end.

(** The named form at the head of [s]: [EventId], white space, the equals
    sign, white space and a maximal run of digits; [rest] is what follows. *)
Definition starts_named (s : text) (n : N) (rest : text) : Prop :=
  exists (w1 w2 : text) (d : Decimal.uint),
    s = txt "EventId" ++ w1 ++ "="%char :: w2 ++ digits_of_uint d ++ rest /\
    all is_space w1 /\ all is_space w2 /\
    d <> Decimal.Nil /\ stops is_digit rest /\ n = N.of_uint d.

(** The positional form at the head of [s]: the opening of the attribute,
    white space (line feeds included), the digits, white space and a
    comma. *)
Definition starts_positional (s : text) (n : N) (rest : text) : Prop :=
  exists (w1 w2 : text) (d : Decimal.uint),
    s = txt "[LoggerMessage(" ++ w1 ++ digits_of_uint d ++ w2 ++ ","%char :: rest /\
    all is_space w1 /\ all is_space w2 /\
    d <> Decimal.Nil /\ n = N.of_uint d.

(** The multi-line positional form: the positional form with a line feed in
    the white space before the digits. *)
Definition starts_multiline (s : text) (n : N) (rest : text) : Prop :=
  exists (wa wb w2 : text) (d : Decimal.uint),
    s = txt "[LoggerMessage(" ++ wa ++ nl :: wb ++ digits_of_uint d
        ++ w2 ++ ","%char :: rest /\
    all is_space wa /\ all is_space wb /\ all is_space w2 /\
    d <> Decimal.Nil /\ n = N.of_uint d.

(** The values of the successive occurrences of a form in a text, from left
    to right: a position where the form does not start is passed over, and
    after an occurrence the scan goes on behind it. *)
Inductive Scan (starts : text -> N -> text -> Prop) : text -> list N -> Prop :=
| Scan_nil : Scan starts [] []
| Scan_skip (c : ascii) (s : text) (l : list N) :
    (forall n rest, ~ starts (c :: s) n rest) ->
    Scan starts s l -> Scan starts (c :: s) l
| Scan_take (s : text) (n : N) (rest : text) (l : list N) :
    starts s n rest -> Scan starts rest l -> Scan starts s (n :: l).

(** The occurrences of a form in the files [paths] of a tree, file by
    file. *)
Definition ScanFiles (starts : text -> N -> text -> Prop) (t : tree)
           (paths : list path) (found : list (list N)) : Prop :=
  Forall2 (fun p l => Scan starts (read_text p t) l) paths found.

(** Three lines in named form, out of order and with one value twice, and
    one identifier in positional form. *)
Definition unsorted_file : text :=
  of_lines ["[LoggerMessage(EventId = 9, Level = LogLevel.Debug)]";
            "[LoggerMessage(EventId = 5, Level = LogLevel.Debug)]";
            "[LoggerMessage(EventId = 9, Level = LogLevel.Debug)]";
            "[LoggerMessage(7, LogLevel.Information, Template)]"].

(** Two files that carry the same identifier in positional form. *)
Definition positional_tree : tree :=
  [(zone_cs, positional_file); (client_cs, positional_file)].

(** * Properties *)

(** ** Dictionaries and sorting *)

Lemma path_eqb_eq (p q : path) : path_eqb p q = true <-> p = q.
Proof.
  unfold path_eqb. destruct (list_eq_dec _ p q); split; congruence.
Qed.

Lemma path_eqb_refl (p : path) : path_eqb p p = true.
Proof. now apply path_eqb_eq. Qed.

Lemma text_eqb_eq (a b : text) : text_eqb a b = true <-> a = b.
Proof.
  unfold text_eqb. destruct (list_eq_dec _ a b); split; congruence.
Qed.

Section DictFacts.
Context {K V : Type} (keq : K -> K -> bool).
Hypothesis keq_eq : forall a b, keq a b = true <-> a = b.

Lemma dict_set_in (k : K) (v : V) (d : list (K * V)) (k0 : K) (v0 : V) :
  In (k0, v0) (dict_set keq k v d) -> (k0 = k /\ v0 = v) \/ In (k0, v0) d.
Proof.
  induction d as [|[k' v'] d IH]; simpl.
  - intros [H|[]]. inversion H. now left.
  - destruct (keq k k') eqn:E.
    + apply keq_eq in E. subst k'. intros [H|H].
      * inversion H. now left.
      * right. now right.
    + intros [H|H].
      * right. now left.
      * destruct (IH H) as [?|?]; [now left|right; now right].
Qed.

Lemma dict_set_keys (k : K) (v : V) (d : list (K * V)) (k0 : K) :
  In k0 (map fst (dict_set keq k v d)) <-> k0 = k \/ In k0 (map fst d).
Proof.
  induction d as [|[k' v'] d IH]; simpl.
  - intuition.
  - destruct (keq k k') eqn:E; simpl.
    + apply keq_eq in E. subst k'. intuition.
    + rewrite IH. intuition.
Qed.

Lemma dict_set_nodup (k : K) (v : V) (d : list (K * V)) :
  NoDup (map fst d) -> NoDup (map fst (dict_set keq k v d)).
Proof.
  induction d as [|[k' v'] d IH]; simpl; intros H.
  - constructor; [intros []|constructor].
  - inversion H as [|? ? Hn Hd]; subst.
    destruct (keq k k') eqn:E; simpl.
    + now constructor.
    + constructor; [|now apply IH].
      rewrite dict_set_keys. intros [->|?]; [|contradiction].
      assert (keq k k = true) by now apply keq_eq. congruence.
Qed.

Lemma dict_get_set_same (k : K) (v : V) (d : list (K * V)) :
  dict_get keq k (dict_set keq k v d) = Some v.
Proof.
  assert (R : keq k k = true) by now apply keq_eq.
  induction d as [|[k' v'] d IH]; simpl.
  - now rewrite R.
  - destruct (keq k k') eqn:E; simpl; now rewrite ?E, ?IH.
Qed.

Lemma dict_get_set_other (k k0 : K) (v : V) (d : list (K * V)) :
  k0 <> k -> dict_get keq k0 (dict_set keq k v d) = dict_get keq k0 d.
Proof.
  intros Hne.
  assert (R : keq k0 k = false).
  { destruct (keq k0 k) eqn:E; [apply keq_eq in E; congruence|easy]. }
  induction d as [|[k' v'] d IH]; simpl.
  - now rewrite R.
  - destruct (keq k k') eqn:E; simpl.
    + apply keq_eq in E. subst k'. now rewrite R.
    + now rewrite IH.
Qed.

Lemma dict_get_none (k : K) (d : list (K * V)) :
  dict_get keq k d = None <-> ~ In k (map fst d).
Proof.
  induction d as [|[k' v'] d IH]; simpl.
  - intuition.
  - destruct (keq k k') eqn:E.
    + apply keq_eq in E. subst. split; [discriminate|intros H; exfalso; auto].
    + rewrite IH. split.
      * intros H [->|?]; [|auto].
        assert (keq k k = true) by now apply keq_eq. congruence.
      * intuition.
Qed.
End DictFacts.

Lemma string_eqb_iff (a b : string) : String.eqb a b = true <-> a = b.
Proof. apply String.eqb_eq. Qed.

Lemma N_eqb_iff (a b : N) : N.eqb a b = true <-> a = b.
Proof. apply N.eqb_eq. Qed.

Section SortFacts.
Context {A : Type} (leb : A -> A -> bool).

Lemma insert_sorted_perm (x : A) (l : list A) :
  Permutation (x :: l) (insert_sorted leb x l).
Proof.
  induction l as [|y l IH]; simpl; [reflexivity|].
  destruct (leb x y); [reflexivity|].
  rewrite perm_swap. now constructor.
Qed.

Lemma sorted_perm (l : list A) : Permutation l (sorted leb l).
Proof.
  induction l as [|x l IH]; simpl; [constructor|].
  rewrite <- insert_sorted_perm. now constructor.
Qed.

Lemma sorted_in (x : A) (l : list A) : In x (sorted leb l) <-> In x l.
Proof.
  split; apply Permutation_in; [symmetry|]; apply sorted_perm.
Qed.

Hypothesis leb_total : forall a b, leb a b = true \/ leb b a = true.
Hypothesis leb_trans : forall a b c, leb a b = true -> leb b c = true -> leb a c = true.

Let le (a b : A) : Prop := leb a b = true.

Lemma insert_sorted_sorted (x : A) (l : list A) :
  StronglySorted le l -> StronglySorted le (insert_sorted leb x l).
Proof.
  induction 1 as [|y l Hs IH Hall]; simpl.
  - constructor; constructor.
  - destruct (leb x y) eqn:E.
    + constructor; [now constructor|].
      constructor; [exact E|].
      eapply Forall_impl; [|exact Hall]. intros z Hz. now apply leb_trans with y.
    + constructor; [exact IH|].
      assert (Hyx : le y x) by (destruct (leb_total x y); [congruence|easy]).
      eapply Permutation_Forall; [apply insert_sorted_perm|].
      now constructor.
Qed.

Lemma sorted_sorted (l : list A) : StronglySorted le (sorted leb l).
Proof.
  induction l; simpl; [constructor|now apply insert_sorted_sorted].
Qed.

Lemma insert_sorted_id (x : A) (l : list A) :
  Forall (le x) l -> insert_sorted leb x l = x :: l.
Proof.
  destruct l as [|y l]; simpl; [easy|].
  intros H. inversion H; subst. unfold le in *. now rewrite H2.
Qed.

Lemma sorted_id (l : list A) : StronglySorted le l -> sorted leb l = l.
Proof.
  induction 1 as [|x l Hs IH Hall]; simpl; [easy|].
  rewrite IH. now apply insert_sorted_id.
Qed.
End SortFacts.

Lemma N_leb_total (a b : N) : (a <=? b)%N = true \/ (b <=? a)%N = true.
Proof. rewrite !N.leb_le. lia. Qed.

Lemma N_leb_trans (a b c : N) :
  (a <=? b)%N = true -> (b <=? c)%N = true -> (a <=? c)%N = true.
Proof. rewrite !N.leb_le. lia. Qed.

Lemma strict_of_sorted_nodup (l : list N) :
  StronglySorted (fun a b => (a <=? b)%N = true) l -> NoDup l ->
  StronglySorted N.lt l.
Proof.
  induction 1 as [|x l Hs IH Hall]; intros Hnd; [constructor|].
  inversion Hnd as [|? ? Hnin Hnd']; subst.
  constructor; [now apply IH|].
  rewrite Forall_forall in *. intros y Hy.
  specialize (Hall y Hy). apply N.leb_le in Hall.
  assert (x <> y) by (intros ->; contradiction). lia.
Qed.

Lemma strict_sorted_le (l : list N) :
  StronglySorted N.lt l -> StronglySorted (fun a b => (a <=? b)%N = true) l.
Proof.
  induction 1 as [|x l Hs IH Hall]; constructor; [easy|].
  eapply Forall_impl; [|exact Hall]. intros y Hy. apply N.leb_le. lia.
Qed.

Lemma strict_sorted_nodup (l : list N) : StronglySorted N.lt l -> NoDup l.
Proof.
  induction 1 as [|x l Hs IH Hall]; constructor; [|easy].
  intros Hin. rewrite Forall_forall in Hall. specialize (Hall x Hin). lia.
Qed.

(** [sorted(list(set(l)))] is strictly ascending and has the members of
    [l]. *)
Lemma sorted_set_strict (l : list N) : StronglySorted N.lt (sorted N.leb (set_of l)).
Proof.
  apply strict_of_sorted_nodup.
  - apply sorted_sorted; [apply N_leb_total|apply N_leb_trans].
  - eapply Permutation_NoDup; [apply sorted_perm|]. apply NoDup_nodup.
Qed.

Lemma sorted_set_in (x : N) (l : list N) : In x (sorted N.leb (set_of l)) <-> In x l.
Proof.
  rewrite sorted_in. unfold set_of. apply nodup_In.
Qed.

(** ** The classifier of organize_eventids.py *)

Lemma organize_categorize_cases (p : path) :
  In (Organize.categorize_file p)
     ["Core"; "Audio"; "KNX"; "MQTT"; "Web"; "Infrastructure"; "Performance";
      "Notifications"].
Proof.
  unfold Organize.categorize_file.
  repeat match goal with
         | |- context [if ?b then _ else _] => destruct b
         end; simpl; tauto.
Qed.

Lemma organize_base_defined (p : path) :
  exists b, Organize.get_category_base (Organize.categorize_file p) = Some b.
Proof.
  pose proof (organize_categorize_cases p) as H. simpl in H.
  repeat (destruct H as [H|H]; [rewrite <- H; eexists; reflexivity|]).
  destruct H.
Qed.

Lemma organize_assign_files_total (cs_files : list path) fa cc :
  exists r, Organize.assign_files cs_files fa cc = Some r.
Proof.
  revert fa cc. induction cs_files as [|f rest IH]; intros fa cc; simpl.
  - eexists; reflexivity.
  - destruct (organize_base_defined f) as [b ->]. apply IH.
Qed.

(** C10: the category of every path is one of the eight keys of the base
    table of organize_eventids.py, so the direct table lookup succeeds, and
    the run of [main] never ends in the lookup's [KeyError]. *)
Theorem organize_classifier_total :
  (forall p : path,
      In (Organize.categorize_file p) (map fst Organize.category_bases) /\
      exists b, Organize.get_category_base (Organize.categorize_file p) = Some b) /\
  (forall w : Organize.world, Organize.main w <> None).
Proof.
  split.
  - intros p. split; [apply organize_categorize_cases|apply organize_base_defined].
  - intros w. unfold Organize.main.
    destruct (organize_assign_files_total
                (sorted path_leb (scan (Organize.snapdog_dir w) (Organize.files w)))
                [] []) as [[fa cc] ->].
    destruct (Organize.duplicates _ _); discriminate.
Qed.

(** ** The extractor of reorganize_eventids.py *)

Lemma extract_eventids_strict (content : text) :
  StronglySorted N.lt (Reorganize.extract_eventids_text content).
Proof. unfold Reorganize.extract_eventids_text. apply sorted_set_strict. Qed.

Lemma extract_eventids_nodup (content : text) :
  NoDup (Reorganize.extract_eventids_text content).
Proof. apply strict_sorted_nodup, extract_eventids_strict. Qed.

Example extract_mixed_forms :
  Reorganize.extract_eventids_text mixed_forms_file = [7; 12; 30]%N.
Proof. vm_compute. reflexivity. Qed.

(** ** The verification pass of organize_eventids.py *)

Lemma memN_in (x : N) (l : list N) : Organize.memN x l = true <-> In x l.
Proof.
  unfold Organize.memN. rewrite existsb_exists. split.
  - intros [y [Hy E]]. apply N.eqb_eq in E. now subst.
  - intros H. exists x. split; [easy|apply N.eqb_refl].
Qed.

Lemma collect_step (ids : list N) (seen dups : list N) :
  (forall x, In x seen -> True) ->
  let r := fold_left (fun acc eventid =>
    (if Organize.memN eventid (fst acc) then fst acc else eventid :: fst acc,
     if Organize.memN eventid (fst acc) then snd acc ++ [eventid] else snd acc))
    ids (seen, dups) in
  (snd r = [] <-> dups = [] /\ NoDup ids /\ forall x, In x ids -> ~ In x seen).
Proof.
  intros _. revert seen dups. induction ids as [|i ids IH]; intros seen dups; simpl.
  - split; [intros ->; repeat split; [constructor|intros ? []]|tauto].
  - destruct (Organize.memN i seen) eqn:E.
    + rewrite (IH seen (dups ++ [i])). apply memN_in in E. split.
      * intros [H _]. now destruct dups.
      * intros [_ [_ H]]. exfalso. apply (H i); [now left|exact E].
    + rewrite (IH (i :: seen) dups).
      assert (Hni : ~ In i seen).
      { intros H. apply memN_in in H. congruence. }
      split.
      * intros [Hd [Hnd Hs]]. repeat split; [easy| |].
        -- constructor; [|easy]. intros H. apply (Hs i H). now left.
        -- intros x [<-|Hx]; [easy|]. intros H. apply (Hs x Hx). now right.
      * intros [Hd [Hnd Hs]]. inversion Hnd as [|? ? Hi Hnd']; subst.
        split; [easy|]. split; [exact Hnd'|].
        intros x Hx [<-|H]; [contradiction|]. apply (Hs x); [now right|easy].
Qed.

(** The list of repeated values is empty exactly when no value occurs
    twice. *)
Lemma collect_nodup (ids : list N) : snd (Organize.collect ids) = [] <-> NoDup ids.
Proof.
  unfold Organize.collect.
  pose proof (collect_step ids [] [] (fun _ _ => I)) as H. cbv zeta in H.
  rewrite H. split; [tauto|]. intros Hn. repeat split; [easy|]. intros ? _ [].
Qed.

(** ** Allocation *)

Lemma fold_left_inv {A B : Type} (P : A -> Prop) (f : A -> B -> A) (l : list B) (a : A) :
  P a -> (forall a' x, In x l -> P a' -> P (f a' x)) -> P (fold_left f l a).
Proof.
  revert a. induction l as [|x l IH]; intros a Ha Hf; simpl; [easy|].
  apply IH.
  - apply Hf; [now left|easy].
  - intros a' y Hy. apply Hf. now right.
Qed.

Lemma replacements_from (new_base : N) (l : list N) :
  forall (k : nat) (acc : list (N * N)),
    NoDup l ->
    (forall x, In x l -> dict_get N.eqb x acc = None) ->
    let r := fold_left (Reorganize.replacements_step new_base)
                       (combine (seq k (List.length l)) l) acc in
    (forall i old, nth_error l i = Some old ->
                   assigned r old = (new_base + N.of_nat (k + i))%N) /\
    (forall x, ~ In x l -> dict_get N.eqb x r = dict_get N.eqb x acc).
Proof.
  induction l as [|x l IH]; intros k acc Hnd Hacc; simpl.
  - split; [intros [|i] old H; discriminate|easy].
  - inversion Hnd as [|? ? Hx Hnd']; subst.
    set (acc' := Reorganize.replacements_step new_base acc (k, x)).
    assert (Hacc' : forall y, In y l -> dict_get N.eqb y acc' = None).
    { intros y Hy. unfold acc', Reorganize.replacements_step. simpl.
      destruct (negb _); [|apply Hacc; now right].
      rewrite (dict_get_set_other N.eqb N_eqb_iff).
      - apply Hacc. now right.
      - intros ->. contradiction. }
    destruct (IH (S k) acc' Hnd' Hacc') as [IH1 IH2]. split.
    + intros [|i] old H; simpl in H.
      * injection H as <-. unfold assigned. rewrite (IH2 x Hx).
        unfold acc', Reorganize.replacements_step. simpl. rewrite Nat.add_0_r.
        destruct (x =? new_base + N.of_nat k)%N eqn:E; simpl.
        -- rewrite (Hacc x (or_introl eq_refl)). now apply N.eqb_eq.
        -- now rewrite (dict_get_set_same N.eqb N_eqb_iff).
      * rewrite (IH1 i old H). f_equal. lia.
    + intros y Hy. rewrite IH2 by (intros H; apply Hy; now right).
      unfold acc', Reorganize.replacements_step. simpl.
      destruct (negb _); [|easy].
      apply (dict_get_set_other N.eqb N_eqb_iff). intros ->. apply Hy. now left.
Qed.

(** The value given to the identifier of rank [i] of a duplicate-free
    list. *)
Lemma replacements_of_rank (new_base : N) (ids : list N) (i : nat) (old : N) :
  NoDup ids -> nth_error ids i = Some old ->
  assigned (Reorganize.replacements_of new_base ids) old = (new_base + N.of_nat i)%N.
Proof.
  intros Hnd H.
  destruct (replacements_from new_base ids 0 [] Hnd (fun _ _ => eq_refl)) as [H1 _].
  apply (H1 i old H).
Qed.

Lemma build_file_data_inv (cs_files : list path) (t : tree) (p : path)
      (data : Reorganize.file_info) :
  In (p, data) (fst (Reorganize.build_file_data cs_files t)) ->
  Reorganize.category data = Reorganize.categorize_file p /\
  Reorganize.eventids data = Reorganize.extract_eventids p t /\
  Reorganize.eventids data <> [].
Proof.
  unfold Reorganize.build_file_data.
  apply (fold_left_inv
    (fun acc => In (p, data) (fst acc) ->
       Reorganize.category data = Reorganize.categorize_file p /\
       Reorganize.eventids data = Reorganize.extract_eventids p t /\
       Reorganize.eventids data <> [])).
  - intros [].
  - intros [fd cc] f _ IH. simpl.
    assert (S : sorted N.leb (Reorganize.extract_eventids f t)
                = Reorganize.extract_eventids f t).
    { apply sorted_id. apply strict_sorted_le.
      apply (extract_eventids_strict (read_text f t)). }
    destruct (Reorganize.extract_eventids f t) eqn:E; [exact IH|].
    cbn [fst snd]. intros H. apply (dict_set_in path_eqb path_eqb_eq) in H.
    destruct H as [[-> ->]|H]; [|now apply IH].
    cbn [Reorganize.category Reorganize.eventids]. rewrite S.
    split; [reflexivity|]. split; [now rewrite E|]. discriminate.
Qed.

Lemma build_file_data_keys (cs_files : list path) (t : tree) :
  NoDup (map fst (fst (Reorganize.build_file_data cs_files t))).
Proof.
  unfold Reorganize.build_file_data.
  apply (fold_left_inv (fun acc => NoDup (map fst (fst acc)))).
  - constructor.
  - intros [fd cc] f _ IH. simpl in *.
    destruct (Reorganize.extract_eventids f t); [exact IH|].
    simpl. now apply dict_set_nodup; [apply path_eqb_eq|].
Qed.

Lemma new_eventids_from (file_base : N) (l : list (nat * N)) :
  forall (k : nat) (acc : list (N * N)),
    NoDup (map snd l) ->
    let r := fold_left (Organize.new_eventids_step file_base)
                       (combine (seq k (List.length l)) l) acc in
    (forall i ln old, nth_error l i = Some (ln, old) ->
        dict_get N.eqb old r = Some (file_base + N.of_nat (k + i))%N) /\
    (forall x, ~ In x (map snd l) -> dict_get N.eqb x r = dict_get N.eqb x acc).
Proof.
  induction l as [|[ln0 x] l IH]; intros k acc Hnd; simpl.
  - split; [intros [|i] ? ? H; discriminate|easy].
  - simpl in Hnd. inversion Hnd as [|? ? Hx Hnd']; subst.
    destruct (IH (S k) (Organize.new_eventids_step file_base acc (k, (ln0, x))) Hnd')
      as [IH1 IH2].
    split.
    + intros [|i] ln old H; simpl in H.
      * injection H as <- <-. rewrite (IH2 x Hx).
        unfold Organize.new_eventids_step. simpl. rewrite Nat.add_0_r.
        apply (dict_get_set_same N.eqb N_eqb_iff).
      * rewrite (IH1 i ln old H). do 2 f_equal. lia.
    + intros y Hy. rewrite IH2 by (intros H; apply Hy; now right).
      unfold Organize.new_eventids_step. simpl.
      apply (dict_get_set_other N.eqb N_eqb_iff). intros ->. apply Hy. now left.
Qed.

Lemma new_eventids_of_rank (file_base : N) (evs : list (nat * N)) (i ln : nat) (old : N) :
  NoDup (map snd evs) -> nth_error evs i = Some (ln, old) ->
  dict_get N.eqb old (Organize.new_eventids_of file_base evs)
  = Some (file_base + N.of_nat i)%N.
Proof.
  intros Hnd H.
  destruct (new_eventids_from file_base evs 0 [] Hnd) as [H1 _].
  apply (H1 i ln old H).
Qed.

Lemma assign_files_inv (cs_files : list path) :
  forall fa cc fa' cc' p a,
    Organize.assign_files cs_files fa cc = Some (fa', cc') ->
    (forall q b, In (q, b) fa ->
       Organize.category b = Organize.categorize_file q /\
       Organize.get_category_base (Organize.category b)
       = Some (Organize.file_base b - Organize.file_index b * 100)%N /\
       (Organize.file_index b * 100 <= Organize.file_base b)%N) ->
    In (p, a) fa' ->
    Organize.category a = Organize.categorize_file p /\
    Organize.get_category_base (Organize.category a)
    = Some (Organize.file_base a - Organize.file_index a * 100)%N /\
    (Organize.file_index a * 100 <= Organize.file_base a)%N.
Proof.
  induction cs_files as [|f rest IH]; intros fa cc fa' cc' p a; simpl.
  - intros H Hinv Hin. injection H as <- <-. now apply Hinv.
  - destruct (Organize.get_category_base (Organize.categorize_file f)) as [b|] eqn:E;
      [|discriminate].
    intros H Hinv Hin. eapply IH; [exact H| |exact Hin].
    intros q b' Hq. apply (dict_set_in path_eqb path_eqb_eq) in Hq.
    destruct Hq as [[-> ->]|Hq]; [|now apply Hinv].
    simpl. split; [easy|]. split; [|lia]. rewrite E. f_equal. lia.
Qed.

Lemma assign_files_keys (cs_files : list path) :
  forall fa cc fa' cc',
    Organize.assign_files cs_files fa cc = Some (fa', cc') ->
    NoDup (map fst fa) -> NoDup (map fst fa').
Proof.
  induction cs_files as [|f rest IH]; intros fa cc fa' cc'; simpl.
  - intros H. now injection H as <- <-.
  - destruct (Organize.get_category_base (Organize.categorize_file f)); [|discriminate].
    intros H Hnd. eapply IH; [exact H|].
    now apply dict_set_nodup; [apply path_eqb_eq|].
Qed.

Example audio_scenario :
  Reorganize.changes_of
    (fst (Reorganize.build_file_data (scan repo audio_tree) audio_tree))
  = [([txt "Audio"; txt "A.cs"], [(5, 2000); (9, 2001)]);
     ([txt "Audio"; txt "B.cs"], [(100, 2100)]);
     ([txt "Audio"; txt "C.cs"], [(3, 2200)])]%N.
Proof. vm_compute. reflexivity. Qed.

(** The claim of C2 as stated fails on organize_eventids.py: its ranks follow
    the line order.  In a file of category Core with index 0 whose lines
    hold 9 and then 5, the sorted distinct list is 5, 9, yet 5 is given
    1001 and 9 is given 1000. *)
Lemma organize_ranks_by_line :
  let evs := Organize.find_eventids (split_lines descending_file) in
  let w := Organize.World repo [(zone_cs, descending_file)] in
  sorted N.leb (set_of (map snd evs)) = [5; 9]%N /\
  Organize.assign_files [zone_cs] [] [] =
    Some ([(zone_cs, Organize.Assignment "Core" 0 1000)], [("Core", 1%N)]) /\
  Organize.new_id_of (Organize.new_eventids_of 1000 evs) 5 = 1001%N /\
  Organize.new_id_of (Organize.new_eventids_of 1000 evs) 5 <> (1000 + 0 * 100 + 0)%N /\
  Organize.main w =
    Some (0%N, Disk [(zone_cs,
                      of_lines ["[LoggerMessage(EventId = 1000, Level = LogLevel.Debug)]";
                                "[LoggerMessage(EventId = 1001, Level = LogLevel.Debug)]"])]
                    [Wrote zone_cs]).
Proof.
  vm_compute. repeat split; discriminate.
Qed.

(** C2, amended: in reorganize_eventids.py the identifier of rank [i] in the
    file's strictly ascending list of distinct identifiers is assigned
    [category_base + file_index * 100 + i]; in organize_eventids.py the rank
    is the position among the lines that carry an identifier, and when
    these identifiers are pairwise distinct the one on the [i]-th such line
    is assigned [category_base + file_index * 100 + i]. *)
Theorem identifier_assignment :
  (forall (cs_files : list path) (t : tree) (p : path)
          (data : Reorganize.file_info) (i : nat) (old : N),
      In (p, data) (fst (Reorganize.build_file_data cs_files t)) ->
      nth_error (Reorganize.eventids data) i = Some old ->
      Reorganize.eventids data = Reorganize.extract_eventids p t /\
      StronglySorted N.lt (Reorganize.eventids data) /\
      assigned (Reorganize.replacements_of (Reorganize.new_base_of data)
                                           (Reorganize.eventids data)) old
      = (Reorganize.get_category_base (Reorganize.categorize_file p)
         + Reorganize.file_index data * 100 + N.of_nat i)%N) /\
  (forall (cs_files : list path) fa cc (p : path) (a : Organize.assignment)
          (lines : list text) (i ln : nat) (old : N),
      Organize.assign_files cs_files [] [] = Some (fa, cc) ->
      In (p, a) fa ->
      NoDup (map snd (Organize.find_eventids lines)) ->
      nth_error (Organize.find_eventids lines) i = Some (ln, old) ->
      exists base : N,
        Organize.get_category_base (Organize.categorize_file p) = Some base /\
        dict_get N.eqb old
          (Organize.new_eventids_of (Organize.file_base a) (Organize.find_eventids lines))
        = Some (base + Organize.file_index a * 100 + N.of_nat i)%N).
Proof.
  split.
  - intros cs_files t p data i old Hin Hnth.
    destruct (build_file_data_inv _ _ _ _ Hin) as [Hc [He _]].
    assert (Hs : StronglySorted N.lt (Reorganize.eventids data)).
    { rewrite He. apply (extract_eventids_strict (read_text p t)). }
    split; [exact He|]. split; [exact Hs|].
    rewrite (replacements_of_rank _ _ i old (strict_sorted_nodup _ Hs) Hnth).
    unfold Reorganize.new_base_of. now rewrite Hc.
  - intros cs_files fa cc p a lines i ln old Hfa Hin Hnd Hnth.
    destruct (assign_files_inv cs_files [] [] fa cc p a Hfa) as [Hc [Hb Hle]];
      [intros ? ? []|exact Hin|].
    exists (Organize.file_base a - Organize.file_index a * 100)%N.
    split; [now rewrite <- Hc|].
    rewrite (new_eventids_of_rank _ _ i ln old Hnd Hnth). f_equal. lia.
Qed.

Lemma identifier_assignment_witness :
  assigned (Reorganize.replacements_of 1100 [200; 201; 202]%N) 202%N = 1102%N /\
  dict_get N.eqb 5%N
    (Organize.new_eventids_of 1000 (Organize.find_eventids (split_lines descending_file)))
  = Some 1001%N.
Proof.
  split.
  - pose proof (proj1 identifier_assignment [zone_cs; client_cs]
                  [(client_cs, numbered_file 1 3); (zone_cs, numbered_file 200 3)]
                  zone_cs (Reorganize.FileInfo "Core" [200; 201; 202]%N 1%N)
                  2%nat 202%N) as H.
    assert (H1 : In (zone_cs, Reorganize.FileInfo "Core" [200; 201; 202]%N 1%N)
                    (fst (Reorganize.build_file_data [zone_cs; client_cs]
                       [(client_cs, numbered_file 1 3); (zone_cs, numbered_file 200 3)])))
      by (vm_compute; right; left; reflexivity).
    destruct (H H1 eq_refl) as [_ [_ E]]. exact E.
  - destruct (proj2 identifier_assignment [zone_cs]
                  [(zone_cs, Organize.Assignment "Core" 0 1000)] [("Core", 1%N)]
                  zone_cs (Organize.Assignment "Core" 0 1000)
                  (split_lines descending_file) 1%nat 1%nat 5%N) as [b [Hb E]].
    + reflexivity.
    + left; reflexivity.
    + vm_compute. repeat constructor; simpl; intuition discriminate.
    + reflexivity.
    + vm_compute in Hb. injection Hb as <-. exact E.
Defined.

(** ** No check of the block size *)

(** The claim of C3 as stated fails: with 101 distinct identifiers in one
    file, both scripts run to the end and rewrite the file;
    reorganize_eventids.py exits with status 0, and organize_eventids.py
    reports the collision only after the files are written. *)
Lemma overflowing_file_is_rewritten :
  let wr := Reorganize.World repo true overflow_tree (txt "y") in
  let wo := Organize.World repo overflow_tree in
  List.length (Reorganize.extract_eventids client_cs overflow_tree) = 101%nat /\
  fst (Reorganize.main wr) = 0%N /\
  In (Wrote client_cs) (d_log (snd (Reorganize.main wr))) /\
  read_text client_cs (d_tree (snd (Reorganize.main wr))) = numbered_file 1000 101 /\
  exists d, Organize.main wo = Some (1%N, d) /\
            In (Wrote client_cs) (d_log d) /\
            read_text client_cs (d_tree d) = numbered_file 1000 101.
Proof.
  cbv zeta. split; [vm_compute; reflexivity|]. split; [vm_compute; reflexivity|].
  split; [vm_compute; right; left; reflexivity|]. split; [vm_compute; reflexivity|].
  eexists. split; [vm_compute; reflexivity|].
  split; [left; reflexivity|vm_compute; reflexivity].
Qed.

Lemma apply_all_log (changes : list (path * list (N * N))) :
  forall d : disk,
    d_log (Reorganize.apply_all changes d) = d_log d ++ map Wrote (map fst changes).
Proof.
  induction changes as [|[q r] l IH]; intros d; simpl.
  - now rewrite app_nil_r.
  - unfold Reorganize.apply_all in *. simpl. rewrite IH. simpl.
    now rewrite <- app_assoc.
Qed.

(** C3, amended: neither script compares a file's identifier count with the
    block size of 100, and no run stops for it.  In reorganize_eventids.py a
    file with more than 100 distinct identifiers still gets
    [new_base + rank] at every rank, so its identifier of rank 100 receives
    the value that the first identifier of the next file of the same
    category receives; and once the user confirms, every file with a
    non-empty [replacements] is written, whatever its identifier count. *)
Theorem block_overflow_not_rejected :
  (forall (cs_files : list path) (t : tree) (p1 p2 : path)
          (d1 d2 : Reorganize.file_info) (old1 old2 : N),
      In (p1, d1) (fst (Reorganize.build_file_data cs_files t)) ->
      In (p2, d2) (fst (Reorganize.build_file_data cs_files t)) ->
      Reorganize.category d1 = Reorganize.category d2 ->
      Reorganize.file_index d2 = (Reorganize.file_index d1 + 1)%N ->
      nth_error (Reorganize.eventids d1) 100 = Some old1 ->
      nth_error (Reorganize.eventids d2) 0 = Some old2 ->
      assigned (Reorganize.replacements_of (Reorganize.new_base_of d1)
                                           (Reorganize.eventids d1)) old1
      = (Reorganize.get_category_base (Reorganize.category d1)
         + (Reorganize.file_index d1 + 1) * 100)%N /\
      assigned (Reorganize.replacements_of (Reorganize.new_base_of d2)
                                           (Reorganize.eventids d2)) old2
      = assigned (Reorganize.replacements_of (Reorganize.new_base_of d1)
                                             (Reorganize.eventids d1)) old1) /\
  (forall (w : Reorganize.world) (p : path),
      let cs_files := scan (Reorganize.snapdog_dir w) (Reorganize.files w) in
      let d1 := Reorganize.phase1 cs_files (Disk (Reorganize.files w) []) in
      Reorganize.dir_exists w = true ->
      text_eqb (lower (strip (Reorganize.response w))) (txt "y") = true ->
      In p (map fst (Reorganize.changes_of
                       (fst (Reorganize.build_file_data cs_files (d_tree d1))))) ->
      fst (Reorganize.main w) = 0%N /\
      In (Wrote p) (d_log (snd (Reorganize.main w)))).
Proof.
  split.
  - intros cs_files t p1 p2 d1 d2 old1 old2 H1 H2 Hc Hi Hn1 Hn2.
    destruct (build_file_data_inv _ _ _ _ H1) as [_ [He1 _]].
    destruct (build_file_data_inv _ _ _ _ H2) as [_ [He2 _]].
    assert (Hs1 : NoDup (Reorganize.eventids d1)).
    { rewrite He1. apply (extract_eventids_nodup (read_text p1 t)). }
    assert (Hs2 : NoDup (Reorganize.eventids d2)).
    { rewrite He2. apply (extract_eventids_nodup (read_text p2 t)). }
    rewrite (replacements_of_rank _ _ _ _ Hs1 Hn1).
    rewrite (replacements_of_rank _ _ _ _ Hs2 Hn2).
    unfold Reorganize.new_base_of. rewrite <- Hc, Hi. lia.
  - intros w p cs_files d1 He Hy Hin.
    unfold Reorganize.main. rewrite He. cbn [negb]. cbv zeta.
    fold cs_files. fold d1.
    destruct (Reorganize.changes_of _) as [|c l] eqn:E; [destruct Hin|].
    rewrite Hy. cbn [negb fst snd]. split; [reflexivity|].
    rewrite apply_all_log, in_app_iff. right. now apply in_map.
Qed.

Lemma block_overflow_not_rejected_witness :
  let ids := map (fun k => (200 + N.of_nat k)%N) (seq 0 101) in
  (assigned (Reorganize.replacements_of 1000 ids) 300%N = 1100%N /\
   assigned (Reorganize.replacements_of 1100 [1; 2; 3]%N) 1%N
   = assigned (Reorganize.replacements_of 1000 ids) 300%N) /\
  In (Wrote client_cs)
     (d_log (snd (Reorganize.main (Reorganize.World repo true overflow_tree (txt "y"))))).
Proof.
  cbv zeta. split.
  - apply (proj1 block_overflow_not_rejected [zone_cs; client_cs] overflow_tree
             client_cs zone_cs
             (Reorganize.FileInfo "Core"
                (map (fun k => (200 + N.of_nat k)%N) (seq 0 101)) 0%N)
             (Reorganize.FileInfo "Core" [1; 2; 3]%N 1%N) 300%N 1%N).
    + vm_compute. left. reflexivity.
    + vm_compute. right. left. reflexivity.
    + reflexivity.
    + reflexivity.
    + vm_compute. reflexivity.
    + reflexivity.
  - apply (proj2 block_overflow_not_rejected
             (Reorganize.World repo true overflow_tree (txt "y")) client_cs).
    + reflexivity.
    + reflexivity.
    + vm_compute. left. reflexivity.
Defined.

(** ** The disk *)

Lemma read_write_other (p q : path) (c : text) (t : tree) :
  p <> q -> read_text p (write_text q c t) = read_text p t.
Proof.
  intros Hne. unfold read_text. f_equal.
  induction t as [|[k v] t IH]; simpl; [easy|].
  destruct (path_eqb k q) eqn:E; simpl.
  - apply path_eqb_eq in E. subst k.
    destruct (path_eqb p q) eqn:E'; [apply path_eqb_eq in E'; contradiction|exact IH].
  - destruct (path_eqb p k); [easy|exact IH].
Qed.

Lemma in_log_write (e : event) (q : path) (c : text) (d : disk) :
  In e (d_log (disk_write q c d)) <-> In e (d_log d) \/ e = Wrote q.
Proof.
  unfold disk_write. simpl. rewrite in_app_iff. simpl. intuition.
Qed.

(** ** Declining the confirmation prompt *)

(** The claim of C5 as stated fails: Phase 1 runs before the prompt and
    writes.  A file in positional form is rewritten in the named form
    although the user answers n. *)
Lemma phase1_writes_before_prompt :
  let w := Reorganize.World repo true [(zone_cs, positional_file)] (txt "n") in
  Reorganize.main w = (0%N, Disk [(zone_cs, standardized_file)] [Wrote zone_cs]) /\
  d_tree (snd (Reorganize.main w)) <> Reorganize.files w.
Proof.
  split; [vm_compute; reflexivity|]. vm_compute. discriminate.
Qed.

Lemma phase1_frame (cs_files : list path) (t : tree) (p : path) :
  Reorganize.has_positional_format (read_text p t) = false ->
  let d := Reorganize.phase1 cs_files (Disk t []) in
  read_text p (d_tree d) = read_text p t /\
  ~ In (Wrote p) (d_log d) /\ ~ In WroteReport (d_log d).
Proof.
  intros Hp. unfold Reorganize.phase1.
  apply (fold_left_inv (fun d => read_text p (d_tree d) = read_text p t /\
                                 ~ In (Wrote p) (d_log d) /\ ~ In WroteReport (d_log d))).
  - simpl. tauto.
  - intros d f _ [Hr [Hl Hm]].
    destruct (Reorganize.has_positional_format (read_text f (d_tree d))) eqn:E;
      [|tauto].
    assert (Hne : p <> f) by (intros ->; rewrite Hr in E; congruence).
    unfold Reorganize.standardize_file_format.
    destruct (negb _); simpl; [|tauto].
    rewrite (read_write_other _ _ _ _ Hne). split; [exact Hr|].
    rewrite !in_app_iff. simpl. split; intros [H|[H|[]]]; try contradiction.
    + injection H as H. congruence.
    + discriminate.
Qed.

Lemma phase1_no_report (cs_files : list path) (t : tree) :
  ~ In WroteReport (d_log (Reorganize.phase1 cs_files (Disk t []))).
Proof.
  unfold Reorganize.phase1.
  apply (fold_left_inv (fun d => ~ In WroteReport (d_log d))).
  - simpl. tauto.
  - intros d f _ Hm.
    destruct (Reorganize.has_positional_format _); [|easy].
    unfold Reorganize.standardize_file_format.
    destruct (negb _); simpl; [|easy].
    rewrite in_app_iff. simpl. intros [H|[H|[]]]; [contradiction|discriminate].
Qed.

(** C5, amended: when the answer at the prompt is not y, the run ends with
    status 0 and the disk is the one Phase 1 left: no identifier has been
    renumbered and the mapping report is not written, and a file whose text
    has no positional LoggerMessage form is neither written nor changed.
    Files in positional form may already have been rewritten by the
    standardisation of Phase 1. *)
Theorem declined_run (w : Reorganize.world) :
  Reorganize.dir_exists w = true ->
  text_eqb (lower (strip (Reorganize.response w))) (txt "y") = false ->
  let cs_files := scan (Reorganize.snapdog_dir w) (Reorganize.files w) in
  Reorganize.main w = (0%N, Reorganize.phase1 cs_files (Disk (Reorganize.files w) [])) /\
  ~ In WroteReport (d_log (snd (Reorganize.main w))) /\
  forall p : path,
    Reorganize.has_positional_format (read_text p (Reorganize.files w)) = false ->
    ~ In (Wrote p) (d_log (snd (Reorganize.main w))) /\
    read_text p (d_tree (snd (Reorganize.main w))) = read_text p (Reorganize.files w).
Proof.
  intros He Hr cs_files.
  assert (Hm : Reorganize.main w
               = (0%N, Reorganize.phase1 cs_files (Disk (Reorganize.files w) []))).
  { unfold Reorganize.main. rewrite He. cbn [negb]. cbv zeta. fold cs_files.
    destruct (Reorganize.changes_of _); [reflexivity|].
    now rewrite Hr. }
  rewrite Hm. cbn [snd]. split; [reflexivity|]. split; [apply phase1_no_report|].
  intros p Hp. destruct (phase1_frame cs_files (Reorganize.files w) p Hp) as [H1 [H2 _]].
  now split.
Qed.

Lemma declined_run_witness :
  let w := Reorganize.World repo true [(zone_cs, descending_file)] (txt " N ") in
  Reorganize.main w = (0%N, Disk [(zone_cs, descending_file)] []).
Proof.
  cbv zeta.
  destruct (declined_run
              (Reorganize.World repo true [(zone_cs, descending_file)] (txt " N "))
              eq_refl eq_refl) as [H _].
  rewrite H. vm_compute. reflexivity.
Defined.

(** ** Files whose assignment changes nothing *)

Lemma in_keys_unique {V : Type} (l : list (path * V)) (p : path) (a b : V) :
  NoDup (map fst l) -> In (p, a) l -> In (p, b) l -> a = b.
Proof.
  induction l as [|[k v] l IH]; simpl; [intros _ []|].
  intros Hnd Ha Hb. inversion Hnd as [|? ? Hk Hnd']; subst.
  destruct Ha as [Ha|Ha], Hb as [Hb|Hb].
  - congruence.
  - injection Ha as -> ->. exfalso. apply Hk. now apply (in_map fst) in Hb.
  - injection Hb as -> ->. exfalso. apply Hk. now apply (in_map fst) in Ha.
  - now apply IH.
Qed.

Lemma changes_needed_false (new_eventids : list (N * N)) :
  (forall old new, In (old, new) new_eventids -> old = new) ->
  Organize.changes_needed new_eventids = false.
Proof.
  intros H. unfold Organize.changes_needed.
  apply not_true_is_false. intros E. apply existsb_exists in E.
  destruct E as [[old new] [Hin E]]. simpl in E.
  rewrite (H old new Hin), N.eqb_refl in E. discriminate.
Qed.

Lemma process_file_noop (p : path) (a : Organize.assignment) (d : disk) :
  Organize.changes_needed
    (Organize.new_eventids_of (Organize.file_base a)
       (Organize.find_eventids (split_lines (read_text p (d_tree d))))) = false ->
  Organize.process_file p a d = d.
Proof.
  intros H. unfold Organize.process_file. cbv zeta. rewrite H.
  now destruct (Organize.find_eventids _).
Qed.

Lemma process_file_other (p q : path) (a : Organize.assignment) (d : disk) :
  p <> q ->
  read_text p (d_tree (Organize.process_file q a d)) = read_text p (d_tree d) /\
  (In (Wrote p) (d_log (Organize.process_file q a d)) -> In (Wrote p) (d_log d)).
Proof.
  intros Hne. unfold Organize.process_file. cbv zeta.
  destruct (Organize.find_eventids _); [tauto|].
  destruct (Organize.changes_needed _); [|tauto].
  simpl. rewrite (read_write_other _ _ _ _ Hne). split; [reflexivity|].
  rewrite in_app_iff. simpl. intros [H|[H|[]]]; [exact H|congruence].
Qed.

Lemma process_files_frame (p : path) (l : list (path * Organize.assignment)) :
  forall d : disk,
    ~ In p (map fst l) ->
    read_text p (d_tree (Organize.process_files l d)) = read_text p (d_tree d) /\
    (In (Wrote p) (d_log (Organize.process_files l d)) -> In (Wrote p) (d_log d)).
Proof.
  induction l as [|[q b] l IH]; intros d Hn; simpl; [tauto|].
  simpl in Hn.
  assert (Hne : p <> q) by (intros ->; apply Hn; now left).
  destruct (IH (Organize.process_file q b d)) as [H1 H2]; [tauto|].
  destruct (process_file_other p q b d Hne) as [H3 H4].
  unfold Organize.process_files in *. split; [congruence|tauto].
Qed.

Lemma process_files_noop (p : path) (a : Organize.assignment)
      (l : list (path * Organize.assignment)) :
  forall d : disk,
    NoDup (map fst l) -> In (p, a) l ->
    Organize.changes_needed
      (Organize.new_eventids_of (Organize.file_base a)
         (Organize.find_eventids (split_lines (read_text p (d_tree d))))) = false ->
    read_text p (d_tree (Organize.process_files l d)) = read_text p (d_tree d) /\
    (In (Wrote p) (d_log (Organize.process_files l d)) -> In (Wrote p) (d_log d)).
Proof.
  induction l as [|[q b] l IH]; intros d Hnd Hin Hc; simpl; [destruct Hin|].
  simpl in Hnd. inversion Hnd as [|? ? Hq Hnd']; subst.
  destruct Hin as [Hin|Hin].
  - injection Hin as -> ->. rewrite (process_file_noop p a d Hc).
    now apply process_files_frame.
  - assert (Hne : p <> q).
    { intros ->. apply Hq. now apply (in_map fst) in Hin. }
    destruct (process_file_other p q b d Hne) as [H3 H4].
    destruct (IH (Organize.process_file q b d) Hnd' Hin) as [H1 H2].
    + now rewrite H3.
    + unfold Organize.process_files in *. split; [congruence|tauto].
Qed.

Lemma replacements_identity (new_base : N) (l : list N) :
  forall (k : nat) (acc : list (N * N)),
    (forall i old, nth_error l i = Some old -> (new_base + N.of_nat (k + i))%N = old) ->
    fold_left (Reorganize.replacements_step new_base)
              (combine (seq k (List.length l)) l) acc = acc.
Proof.
  induction l as [|x l IH]; intros k acc H; simpl; [reflexivity|].
  rewrite IH.
  - unfold Reorganize.replacements_step. simpl.
    rewrite <- (H 0%nat x eq_refl), Nat.add_0_r, N.eqb_refl. reflexivity.
  - intros i old Hi. rewrite <- (H (S i) old Hi). f_equal. lia.
Qed.

Lemma changes_of_keys (fd : list (path * Reorganize.file_info)) (p : path) :
  In p (map fst (Reorganize.changes_of fd)) ->
  exists data, In (p, data) fd /\
    Reorganize.replacements_of (Reorganize.new_base_of data)
                               (Reorganize.eventids data) <> [].
Proof.
  unfold Reorganize.changes_of.
  apply (fold_left_inv (fun changes =>
    In p (map fst changes) ->
    exists data, In (p, data) fd /\
      Reorganize.replacements_of (Reorganize.new_base_of data)
                                 (Reorganize.eventids data) <> [])).
  - intros [].
  - intros changes [q data] Hq IH. cbn [fst snd].
    destruct (Reorganize.replacements_of _ _) eqn:E; [exact IH|].
    rewrite (dict_set_keys path_eqb path_eqb_eq). intros [->|H]; [|now apply IH].
    exists data. split; [exact Hq|]. rewrite E. discriminate.
Qed.

Lemma apply_all_frame (p : path) (changes : list (path * list (N * N))) :
  forall d : disk,
    ~ In p (map fst changes) ->
    read_text p (d_tree (Reorganize.apply_all changes d)) = read_text p (d_tree d) /\
    (In (Wrote p) (d_log (Reorganize.apply_all changes d)) -> In (Wrote p) (d_log d)).
Proof.
  induction changes as [|[q r] l IH]; intros d Hn; simpl; [tauto|].
  simpl in Hn.
  assert (Hne : p <> q) by (intros ->; apply Hn; now left).
  destruct (IH (disk_write q (Reorganize.replace_eventids_text r (read_text q (d_tree d))) d))
    as [H1 H2]; [tauto|].
  unfold Reorganize.apply_all in *. simpl in *. rewrite H1. split.
  - now apply read_write_other.
  - intros H. apply H2 in H. apply in_app_iff in H. simpl in H.
    destruct H as [H|[H|[]]]; [exact H|congruence].
Qed.

(** C8: a file whose computed assignment maps every identifier to itself is
    not written by the rewriter, and its text stays as it was.  In
    organize_eventids.py this holds for the whole run; in
    reorganize_eventids.py it holds for the renumbering that follows the
    standardisation of Phase 1. *)
Theorem unchanged_file_not_written :
  (forall (w : Organize.world) fa cc (p : path) (a : Organize.assignment)
          (status : N) (d : disk),
      Organize.assign_files
        (sorted path_leb (scan (Organize.snapdog_dir w) (Organize.files w))) [] []
      = Some (fa, cc) ->
      In (p, a) fa ->
      (forall old new,
          In (old, new)
             (Organize.new_eventids_of (Organize.file_base a)
                (Organize.find_eventids (split_lines (read_text p (Organize.files w))))) ->
          old = new) ->
      Organize.main w = Some (status, d) ->
      ~ In (Wrote p) (d_log d) /\
      read_text p (d_tree d) = read_text p (Organize.files w)) /\
  (forall (w : Reorganize.world) (p : path) (data : Reorganize.file_info),
      let cs_files := scan (Reorganize.snapdog_dir w) (Reorganize.files w) in
      let d1 := Reorganize.phase1 cs_files (Disk (Reorganize.files w) []) in
      Reorganize.dir_exists w = true ->
      In (p, data) (fst (Reorganize.build_file_data cs_files (d_tree d1))) ->
      (forall i old, nth_error (Reorganize.eventids data) i = Some old ->
                     (Reorganize.new_base_of data + N.of_nat i)%N = old) ->
      (In (Wrote p) (d_log (snd (Reorganize.main w))) -> In (Wrote p) (d_log d1)) /\
      read_text p (d_tree (snd (Reorganize.main w))) = read_text p (d_tree d1)).
Proof.
  split.
  - intros w fa cc p a status d Hfa Hin Hid Hm.
    unfold Organize.main in Hm. rewrite Hfa in Hm.
    assert (Hd : d = Organize.process_files fa (Disk (Organize.files w) [])).
    { destruct (Organize.duplicates _ _); now injection Hm as _ <-. }
    assert (Hnd : NoDup (map fst fa)).
    { eapply assign_files_keys; [exact Hfa|constructor]. }
    destruct (process_files_noop p a fa (Disk (Organize.files w) []) Hnd Hin) as [H1 H2].
    + now apply changes_needed_false.
    + subst d. split; [|exact H1]. intros H. now apply H2 in H.
  - intros w p data cs_files d1 He Hin Hid.
    assert (Hr : Reorganize.replacements_of (Reorganize.new_base_of data)
                                            (Reorganize.eventids data) = []).
    { apply replacements_identity. intros i old. now apply Hid. }
    assert (Hk : ~ In p (map fst (Reorganize.changes_of
                   (fst (Reorganize.build_file_data cs_files (d_tree d1)))))).
    { intros H. apply changes_of_keys in H. destruct H as [data' [Hin' Hne]].
      rewrite (in_keys_unique _ p data' data (build_file_data_keys _ _) Hin' Hin) in Hne.
      contradiction. }
    unfold Reorganize.main. rewrite He. cbn [negb]. cbv zeta.
    fold cs_files. fold d1.
    destruct (Reorganize.changes_of _) eqn:E; [tauto|].
    destruct (negb _); [tauto|]. cbn [snd].
    destruct (apply_all_frame p (p0 :: l) (Reorganize.open_report d1) Hk) as [H1 H2].
    split.
    + intros H. apply H2 in H. simpl in H. apply in_app_iff in H.
      destruct H as [H|[H|[]]]; [exact H|discriminate].
    + exact H1.
Qed.

Lemma unchanged_file_not_written_witness :
  (~ In (Wrote zone_cs) [] /\
   read_text zone_cs [(zone_cs, organized_file)] = read_text zone_cs [(zone_cs, organized_file)]) /\
  let w := Reorganize.World repo true [(zone_cs, organized_file)] (txt "y") in
  (In (Wrote zone_cs) (d_log (snd (Reorganize.main w))) -> In (Wrote zone_cs) []) /\
  read_text zone_cs (d_tree (snd (Reorganize.main w))) = organized_file.
Proof.
  split.
  - apply (proj1 unchanged_file_not_written
             (Organize.World repo [(zone_cs, organized_file)])
             [(zone_cs, Organize.Assignment "Core" 0 1000)] [("Core", 1%N)]
             zone_cs (Organize.Assignment "Core" 0 1000) 0%N
             (Disk [(zone_cs, organized_file)] [])).
    + vm_compute. reflexivity.
    + left. reflexivity.
    + vm_compute. intros old new [H|[H|[]]]; injection H as <- <-; reflexivity.
    + vm_compute. reflexivity.
  - cbv zeta.
    apply (proj2 unchanged_file_not_written
             (Reorganize.World repo true [(zone_cs, organized_file)] (txt "y"))
             zone_cs (Reorganize.FileInfo "Core" [1000; 1001]%N 0%N)).
    + reflexivity.
    + vm_compute. left. reflexivity.
    + intros [|[|[|i]]] old H; vm_compute in H; try discriminate;
        injection H as <-; reflexivity.
Defined.

(** ** Character classes and numerals *)

Lemma space_not_word (c : ascii) : is_space c = true -> is_word c = false.
Proof.
  unfold is_space, is_word, is_digit, in_range. intros H.
  apply not_true_is_false. intros W.
  repeat match goal with
         | H : _ || _ = true |- _ => apply orb_true_iff in H; destruct H as [H|H]
         | H : _ && _ = true |- _ => apply andb_true_iff in H; destruct H as [? H]
         | H : (_ <=? _)%N = true |- _ => apply N.leb_le in H
         | H : (_ =? _)%N = true |- _ => apply N.eqb_eq in H
         end; lia.
Qed.

Lemma digit_is_word (c : ascii) : is_digit c = true -> is_word c = true.
Proof. unfold is_word. now intros ->. Qed.

Lemma digits_of_uint_digits (d : Decimal.uint) :
  Forall (fun c => is_digit c = true) (digits_of_uint d).
Proof.
  induction d; simpl; constructor; auto.
Qed.

Lemma str_digits (n : N) : Forall (fun c => is_digit c = true) (str n).
Proof. apply digits_of_uint_digits. Qed.

Lemma str_nonempty (n : N) : str n <> [].
Proof.
  unfold str. destruct n as [|p]; [discriminate|].
  simpl. pose proof (DecimalPos.Unsigned.to_uint_nonnil p) as H.
  destruct (Pos.to_uint p); [contradiction| | | | | | | | | |]; discriminate.
Qed.

Lemma str_words (n : N) : Forall (fun c => is_word c = true) (str n).
Proof.
  eapply Forall_impl; [|apply str_digits]. apply digit_is_word.
Qed.

(** ** What a match of the matcher is *)

Lemma eats_app (u v : text) (st : mstate) : eats (u ++ v) st = eats v (eats u st).
Proof. unfold eats. apply fold_left_app. Qed.

Lemma eats_fields (u : text) :
  forall st : mstate,
    m_len (eats u st) = (m_len st + List.length u)%nat /\
    m_cur (eats u st) = option_map (fun g => rev u ++ g) (m_cur st) /\
    m_groups (eats u st) = m_groups st.
Proof.
  induction u as [|c u IH]; intros st; simpl.
  - rewrite Nat.add_0_r. repeat split. now destruct (m_cur st).
  - destruct (IH (eat c st)) as [H1 [H2 H3]].
    unfold eats in *. simpl in *. rewrite H1, H2, H3. repeat split; [lia|].
    destruct (m_cur st); simpl; [|reflexivity].
    now rewrite <- app_assoc.
Qed.

Lemma eats_prev (P : ascii -> Prop) (u : text) :
  forall st : mstate,
    u <> [] -> Forall P u -> exists c, m_prev (eats u st) = Some c /\ P c.
Proof.
  induction u as [|c u IH]; intros st Hne Hall; [contradiction|].
  inversion Hall; subst. destruct u as [|c' u].
  - exists c. now split.
  - apply (IH (eat c st)); [discriminate|assumption].
Qed.

Lemma run_chr (c : ascii) (r : regex) (st m : mstate) (s : text) :
  run (Chr c :: r) st s = Some m ->
  exists s', s = c :: s' /\ run r (eat c st) s' = Some m.
Proof.
  destruct s as [|x s']; simpl; [discriminate|].
  destruct (Ascii.eqb x c) eqn:E; [|discriminate].
  apply Ascii.eqb_eq in E. subst x. intros H. now exists s'.
Qed.

Lemma run_lits (u : text) (r : regex) :
  forall (st m : mstate) (s : text),
    run (map Chr u ++ r) st s = Some m ->
    exists s', s = u ++ s' /\ run r (eats u st) s' = Some m.
Proof.
  induction u as [|c u IH]; intros st m s H.
  - now exists s.
  - change (map Chr (c :: u) ++ r) with (Chr c :: (map Chr u ++ r)) in H.
    apply run_chr in H. destruct H as [s1 [-> H]].
    apply IH in H. destruct H as [s2 [-> H]]. now exists s2.
Qed.

Lemma run_star_eq (p : ascii -> bool) (r : regex) (st : mstate) (s : text) :
  run (Star p :: r) st s =
  match s with
  | x :: s' =>
      if p x then
        match run (Star p :: r) (eat x st) s' with
        | Some m => Some m
        | None => run r st s
        end
      else run r st s
  | [] => run r st s
  end.
Proof. destruct s; reflexivity. Qed.

Lemma run_star (p : ascii -> bool) (r : regex) (s : text) :
  forall (st m : mstate),
    run (Star p :: r) st s = Some m ->
    exists u s', s = u ++ s' /\ Forall (fun c => p c = true) u /\
                 run r (eats u st) s' = Some m.
Proof.
  induction s as [|x s IH]; intros st m H; rewrite run_star_eq in H.
  - exists [], []. now repeat split.
  - destruct (p x) eqn:E.
    + destruct (run (Star p :: r) (eat x st) s) as [m'|] eqn:E'.
      * injection H as <-. apply IH in E'. destruct E' as [u [s' [-> [Hu Hr]]]].
        exists (x :: u), s'. repeat split; [now constructor|exact Hr].
      * exists [], (x :: s). now repeat split.
    + exists [], (x :: s). now repeat split.
Qed.

(** A match of the rewriters' pattern: the text [EventId], white space, the
    equals sign and white space (the group), then exactly the numeral of
    [old_id], and no word character after it. *)
Lemma match_replace_inv (old_id : N) (prev : option ascii) (s : text) (m : mstate) :
  match_at (replace_pattern old_id) prev s = Some m ->
  exists w1 w2 rest,
    s = (txt "EventId" ++ w1 ++ "="%char :: w2) ++ str old_id ++ rest /\
    Forall (fun c => is_space c = true) w1 /\
    Forall (fun c => is_space c = true) w2 /\
    m_groups m = [txt "EventId" ++ w1 ++ "="%char :: w2] /\
    m_len m = (List.length (txt "EventId" ++ w1 ++ "="%char :: w2)
               + List.length (str old_id))%nat /\
    word_after rest = false.
Proof.
  unfold match_at, replace_pattern, lit, ws. intros H.
  change ([GOpen] ++ map Chr (txt "EventId") ++ ?X)
    with (GOpen :: (map Chr (txt "EventId") ++ X)) in H.
  change (run (GOpen :: ?X) ?st s) with (run X (gopen st) s) in H.
  apply run_lits in H. destruct H as [s1 [-> H]].
  change ([Star is_space; Chr "="; Star is_space; GClose] ++ ?X)
    with (Star is_space :: Chr "=" :: Star is_space :: GClose :: X) in H.
  apply run_star in H. destruct H as [w1 [s2 [-> [Hw1 H]]]].
  apply run_chr in H. destruct H as [s3 [-> H]].
  apply run_star in H. destruct H as [w2 [s4 [-> [Hw2 H]]]].
  change (run (GClose :: ?X) ?st s4) with (run X (gclose st) s4) in H.
  apply run_lits in H. destruct H as [rest [-> H]].
  set (g := txt "EventId" ++ w1 ++ "="%char :: w2).
  set (st0 := gopen (start prev)) in H.
  assert (Hg : eats w2 (eat "=" (eats w1 (eats (txt "EventId") st0))) = eats g st0).
  { unfold g. now rewrite !eats_app. }
  rewrite Hg in H.
  destruct (eats_fields g st0) as [G1 [G2 G3]].
  set (st1 := gclose (eats g st0)) in H.
  assert (K1 : m_len st1 = List.length g).
  { unfold st1, gclose. cbn [m_len]. rewrite G1. reflexivity. }
  assert (K2 : m_groups st1 = [g]).
  { unfold st1, gclose. cbn [m_groups]. rewrite G2, G3.
    unfold st0, gopen. cbn [m_cur m_groups option_map app].
    now rewrite app_nil_r, rev_involutive. }
  destruct (eats_fields (str old_id) st1) as [F1 [_ F3]].
  destruct (eats_prev (fun c => is_digit c = true) (str old_id) st1
                      (str_nonempty old_id) (str_digits old_id)) as [c [Hc Hd]].
  simpl in H. unfold at_boundary in H. rewrite Hc in H. simpl in H.
  rewrite (digit_is_word c Hd) in H. simpl in H.
  destruct (word_after rest) eqn:Hr; [discriminate|].
  injection H as <-.
  exists w1, w2, rest. fold g. rewrite F1, F3, K1, K2.
  repeat split; try assumption.
  unfold g. now rewrite <- !app_assoc.
Qed.

Lemma match_replace_head (old_id : N) (prev : option ascii) (s : text) (m : mstate) :
  match_at (replace_pattern old_id) prev s = Some m -> word_after s = true.
Proof.
  intros H. apply match_replace_inv in H.
  destruct H as [w1 [w2 [rest [-> _]]]]. reflexivity.
Qed.

(** ** [re.sub] with the rewriters' pattern *)

Lemma sub_from_0 (r : regex) (repl : list text -> text) (prev : option ascii) (s : text) :
  sub_from r repl prev 0 s =
  match match_at r prev s with
  | Some m =>
      repl (m_groups m) ++
      match s with
      | [] => []
      | c :: s' =>
          (match m_len m with O => [c] | S _ => [] end) ++
          sub_from r repl (Some c) (pred (m_len m)) s'
      end
  | None =>
      match s with
      | [] => []
      | c :: s' => c :: sub_from r repl (Some c) 0 s'
      end
  end.
Proof. destruct s; reflexivity. Qed.

Lemma sub_from_skip (r : regex) (repl : list text -> text) (u : text) :
  forall (prev : option ascii) (rest : text),
  exists prev', sub_from r repl prev (List.length u) (u ++ rest)
                = sub_from r repl prev' 0 rest.
Proof.
  induction u as [|c u IH]; intros prev rest.
  - now exists prev.
  - destruct (IH (Some c) rest) as [prev' H]. exists prev'. exact H.
Qed.

(** The result of one substitution after a match. *)
Lemma sub_from_match (old_id new_id : N) (prev : option ascii) (s : text) (m : mstate) :
  match_at (replace_pattern old_id) prev s = Some m ->
  exists g rest prev',
    s = g ++ str old_id ++ rest /\
    (exists g' z, g = g' ++ [z] /\ is_word z = false) /\
    word_after rest = false /\
    sub_from (replace_pattern old_id) (replace_template new_id) prev 0 s
    = g ++ str new_id
        ++ sub_from (replace_pattern old_id) (replace_template new_id) prev' 0 rest.
Proof.
  intros H. pose proof (match_replace_inv _ _ _ _ H) as Hi.
  destruct Hi as [w1 [w2 [rest [Hs [_ [Hw2 [Hg [Hl Hr]]]]]]]].
  set (g0 := txt "ventId" ++ w1 ++ "="%char :: w2).
  change (txt "EventId" ++ w1 ++ "="%char :: w2) with ("E"%char :: g0) in *.
  destruct (sub_from_skip (replace_pattern old_id) (replace_template new_id)
              (g0 ++ str old_id) (Some "E"%char) rest) as [prev' Hk].
  exists ("E"%char :: g0), rest, prev'. split; [exact Hs|].
  split; [|split; [exact Hr|]].
  - destruct w2 as [|c0 w2'].
    + exists (txt "EventId" ++ w1), "="%char.
      split; [|reflexivity]. unfold g0. simpl. reflexivity.
    + assert (Hne : c0 :: w2' <> []) by discriminate.
      destruct (exists_last Hne) as [w2'' [z Hz]].
      exists (txt "EventId" ++ w1 ++ "="%char :: w2''), z. split.
      * unfold g0. rewrite Hz. simpl. rewrite <- !app_assoc. reflexivity.
      * apply space_not_word. rewrite Hz in Hw2.
        apply Forall_app in Hw2. destruct Hw2 as [_ Hw2]. now inversion Hw2.
  - rewrite length_app, <- app_assoc in Hk.
    rewrite sub_from_0, H, Hg, Hl. subst s.
    change (replace_template new_id ["E"%char :: g0])
      with (("E"%char :: g0) ++ str new_id).
    cbn [pred List.length Nat.add app]. rewrite Hk.
    now rewrite <- app_assoc.
Qed.

Lemma sub_from_head (old_id new_id : N) (prev : option ascii) (s : text) :
  word_after s = false ->
  word_after (sub_from (replace_pattern old_id) (replace_template new_id) prev 0 s)
  = false.
Proof.
  intros Hs. rewrite sub_from_0.
  destruct (match_at (replace_pattern old_id) prev s) as [m|] eqn:E.
  - apply match_replace_head in E. congruence.
  - destruct s; [reflexivity|exact Hs].
Qed.

(** ** Tokens *)

Lemma tokens_aux_nonword (u : text) :
  forall (cur : text) (z : ascii) (x : text),
    is_word z = false ->
    tokens_aux cur (u ++ z :: x) = tokens_aux cur (u ++ [z]) ++ tokens_aux [] x.
Proof.
  induction u as [|c u IH]; intros cur z x Hz; simpl.
  - rewrite Hz. simpl. now rewrite <- app_assoc.
  - destruct (is_word c).
    + now apply IH.
    + rewrite (IH [] z x Hz). now rewrite <- app_assoc.
Qed.

Lemma tokens_aux_word_run (w : text) :
  forall (cur rest : text),
    Forall (fun c => is_word c = true) w ->
    tokens_aux cur (w ++ rest) = tokens_aux (rev w ++ cur) rest.
Proof.
  induction w as [|c w IH]; intros cur rest Hw; simpl; [reflexivity|].
  inversion Hw as [|? ? Hc Hw']; subst. rewrite Hc, (IH _ _ Hw').
  now rewrite <- app_assoc.
Qed.

Lemma tokens_aux_flush (cur rest : text) :
  word_after rest = false -> cur <> [] ->
  tokens_aux cur rest = rev cur :: tokens_aux [] rest.
Proof.
  intros Hr Hc. destruct rest as [|c rest]; simpl in *.
  - destruct cur; [contradiction|reflexivity].
  - rewrite Hr. destruct cur; [contradiction|reflexivity].
Qed.

(** A numeral between a non-word character and a non-word continuation is
    one token. *)
Lemma tokens_aux_numeral (cur g' : text) (z : ascii) (n : N) (rest : text) :
  is_word z = false -> word_after rest = false ->
  tokens_aux cur ((g' ++ [z]) ++ str n ++ rest)
  = tokens_aux cur (g' ++ [z]) ++ str n :: tokens_aux [] rest.
Proof.
  intros Hz Hr. rewrite <- app_assoc. simpl.
  rewrite (tokens_aux_nonword g' cur z _ Hz). f_equal.
  rewrite (tokens_aux_word_run _ _ _ (str_words n)), app_nil_r.
  rewrite (tokens_aux_flush _ _ Hr).
  - now rewrite rev_involutive.
  - intros H. apply (f_equal (@rev ascii)) in H. rewrite rev_involutive in H.
    now apply (str_nonempty n).
Qed.

Lemma Forall2_refl_or {A : Type} (R : A -> A -> Prop) (l : list A) :
  (forall x, R x x) -> Forall2 R l l.
Proof. intros H. induction l; constructor; auto. Qed.

(** One substitution keeps every token, except tokens that are exactly the
    numeral of [old_id]. *)
Lemma sub_tokens (old_id new_id : N) (n : nat) :
  forall (s : text), (List.length s <= n)%nat ->
  forall (prev : option ascii) (cur : text),
    Forall2 (fun w w' => w' = w \/ (w = str old_id /\ w' = str new_id))
      (tokens_aux cur s)
      (tokens_aux cur
         (sub_from (replace_pattern old_id) (replace_template new_id) prev 0 s)).
Proof.
  induction n as [|n IH]; intros s Hlen prev cur.
  - destruct s; [|simpl in Hlen; lia]. rewrite sub_from_0.
    destruct (match_at (replace_pattern old_id) prev []) eqn:E.
    + apply match_replace_head in E. discriminate.
    + apply Forall2_refl_or. now left.
  - destruct (match_at (replace_pattern old_id) prev s) as [m|] eqn:E.
    + destruct (sub_from_match old_id new_id prev s m E)
        as [g [rest [prev' [Hs [[g' [z [Hg Hz]]] [Hr Hsub]]]]]].
      rewrite Hsub. subst s g.
      rewrite (tokens_aux_numeral cur g' z old_id rest Hz Hr).
      rewrite (tokens_aux_numeral cur g' z new_id _ Hz
                 (sub_from_head old_id new_id prev' rest Hr)).
      apply Forall2_app; [apply Forall2_refl_or; now left|].
      constructor; [now right|]. apply IH.
      rewrite !length_app in Hlen. simpl in Hlen.
      pose proof (str_nonempty old_id). destruct (str old_id); [contradiction|].
      simpl in Hlen. lia.
    + rewrite sub_from_0, E. destruct s as [|c s]; [apply Forall2_refl_or; now left|].
      simpl in Hlen. simpl. destruct (is_word c).
      * apply IH. lia.
      * apply Forall2_app; [apply Forall2_refl_or; now left|].
        constructor; [now left|]. apply IH. lia.
Qed.

Lemma Forall2_compose {A : Type} (P Q R : A -> A -> Prop) (l1 l2 l3 : list A) :
  (forall x y z, P x y -> Q y z -> R x z) ->
  Forall2 P l1 l2 -> Forall2 Q l2 l3 -> Forall2 R l1 l3.
Proof.
  intros H H1. revert l3.
  induction H1 as [|x y l1 l2 Hxy Hl IH]; intros l3 Hq; inversion Hq; subst;
    constructor; eauto.
Qed.

Lemma sub_keeps_tokens (keys : list N) (old_id new_id : N) (s0 s : text) :
  In old_id keys ->
  Forall2 (token_kept_or_numeral keys) (tokens s0) (tokens s) ->
  Forall2 (token_kept_or_numeral keys) (tokens s0)
    (tokens (sub (replace_pattern old_id) (replace_template new_id) s)).
Proof.
  intros Hk H.
  eapply Forall2_compose; [|exact H|apply (sub_tokens old_id new_id _ s (le_n _) None [])].
  intros x y z [->|[k [Hin ->]]] [->|[-> ->]].
  - now left.
  - right. now exists old_id.
  - right. now exists k.
  - right. now exists k.
Qed.

Lemma tokens_refl (keys : list N) (s : text) :
  Forall2 (token_kept_or_numeral keys) (tokens s) (tokens s).
Proof. apply Forall2_refl_or. now left. Qed.

Lemma replace_eventids_tokens (keys : list N) (replacements : list (N * N)) :
  forall (s0 s : text),
    (forall k, In k (map fst replacements) -> In k keys) ->
    Forall2 (token_kept_or_numeral keys) (tokens s0) (tokens s) ->
    Forall2 (token_kept_or_numeral keys) (tokens s0)
      (tokens (Reorganize.replace_eventids_text replacements s)).
Proof.
  induction replacements as [|[o n] l IH]; intros s0 s Hk H; [exact H|].
  unfold Reorganize.replace_eventids_text in *. simpl.
  apply IH.
  - intros k Hin. apply Hk. now right.
  - apply sub_keeps_tokens; [apply Hk; now left|exact H].
Qed.

Lemma list_set_Forall2 {A : Type} (P : A -> A -> Prop) (l0 : list A) :
  forall (cur : list A) (i : nat) (y' : A),
    Forall2 P l0 cur ->
    (forall x y, nth_error l0 i = Some x -> nth_error cur i = Some y -> P x y') ->
    Forall2 P l0 (list_set cur i y').
Proof.
  induction l0 as [|x0 l0 IH]; intros cur i y' H Hy;
    inversion H as [|? y ? cur' Hxy Hrest]; subst.
  - constructor.
  - destruct i as [|i]; simpl.
    + constructor; [now apply (Hy x0 y)|assumption].
    + constructor; [assumption|]. apply IH; [assumption|].
      intros x1 y1 Hx1 Hy1. now apply (Hy x1 y1).
Qed.

Lemma apply_changes_tokens (keys : list N) (new_eventids : list (N * N))
      (evs : list (nat * N)) :
  forall (lines0 cur : list text),
    (forall k, In k (map snd evs) -> In k keys) ->
    Forall2 (fun l l' => Forall2 (token_kept_or_numeral keys) (tokens l) (tokens l'))
            lines0 cur ->
    Forall2 (fun l l' => Forall2 (token_kept_or_numeral keys) (tokens l) (tokens l'))
            lines0 (Organize.apply_changes new_eventids evs cur).
Proof.
  induction evs as [|[i old] evs IH]; intros lines0 cur Hk H; [exact H|].
  unfold Organize.apply_changes in *. simpl. apply IH.
  - intros k Hin. apply Hk. now right.
  - apply list_set_Forall2; [exact H|].
    intros x y Hx Hy.
    assert (Hxy : Forall2 (token_kept_or_numeral keys) (tokens x) (tokens y)).
    { clear - H Hx Hy. revert i Hx Hy.
      induction H; intros [|i] Hx Hy; simpl in *; try discriminate.
      - now injection Hx as <-; injection Hy as <-.
      - now apply (IHForall2 i). }
    rewrite (nth_error_nth _ _ [] Hy).
    apply sub_keeps_tokens; [apply Hk; now left|exact Hxy].
Qed.

(** The claim's example: remapping 12 leaves 1234, 512 and v12 as they
    are. *)
Lemma remap_12_keeps_1234 :
  Reorganize.replace_eventids_text [(12, 2000)]%N mixed_numbers
  = txt "[LoggerMessage(EventId = 2000, Size = 1234)] v12 EventId = 1234 EventId = 512".
Proof. vm_compute. reflexivity. Qed.

(** C7: the rewriters replace whole tokens only.  After [replace_eventids]
    (reorganize_eventids.py) and after the per-line rewriting of
    organize_eventids.py, the text has the same tokens in the same places,
    except that tokens which are exactly the decimal numeral of a remapped
    identifier may have been replaced: a longer number that contains the
    digits of a remapped identifier is a different token and is kept. *)
Theorem replacement_on_word_boundaries :
  (forall (replacements : list (N * N)) (content : text),
      Forall2 (token_kept_or_numeral (map fst replacements))
              (tokens content)
              (tokens (Reorganize.replace_eventids_text replacements content)) /\
      forall (i : nat) (w : text),
        nth_error (tokens content) i = Some w ->
        (forall old_id, In old_id (map fst replacements) -> w <> str old_id) ->
        nth_error (tokens (Reorganize.replace_eventids_text replacements content)) i
        = Some w) /\
  (forall (new_eventids : list (N * N)) (eventids_in_file : list (nat * N))
          (lines : list text),
      Forall2 (fun l l' =>
                 Forall2 (token_kept_or_numeral (map snd eventids_in_file))
                         (tokens l) (tokens l'))
              lines (Organize.apply_changes new_eventids eventids_in_file lines)).
Proof.
  split.
  - intros replacements content.
    assert (H : Forall2 (token_kept_or_numeral (map fst replacements))
                  (tokens content)
                  (tokens (Reorganize.replace_eventids_text replacements content))).
    { apply replace_eventids_tokens; [auto|apply tokens_refl]. }
    split; [exact H|].
    intros i w Hi Hw. revert i Hi.
    induction H as [|x y l l' Hxy Hl IH]; intros [|i] Hi; simpl in *; try discriminate.
    + injection Hi as ->. destruct Hxy as [->|[k [Hk ->]]]; [reflexivity|].
      exfalso. now apply (Hw k).
    + now apply IH.
  - intros new_eventids evs lines.
    apply apply_changes_tokens; [auto|].
    apply Forall2_refl_or. intros l. apply tokens_refl.
Qed.

Lemma replacement_on_word_boundaries_witness :
  nth_error (tokens mixed_numbers) 14 = Some (txt "1234") /\
  nth_error (tokens (Reorganize.replace_eventids_text [(12, 2000)]%N mixed_numbers)) 14
  = Some (txt "1234").
Proof.
  split; [vm_compute; reflexivity|].
  apply (proj2 (proj1 replacement_on_word_boundaries [(12, 2000)]%N mixed_numbers)).
  - vm_compute. reflexivity.
  - intros old_id [<-|[]]. vm_compute. discriminate.
Defined.

(** ** Runs that end with repeated identifiers *)

(** C1 fails on the code.  reorganize_eventids.py applies the entries of
    [replacements] one after the other to the whole text: with 999 -> 1000
    and 1000 -> 1001 both identifiers end as 1001.  organize_eventids.py
    gives every line that carries the same old identifier the same new one:
    two lines with 5 both end as 1001, and the run exits with status 1. *)
Theorem rewrite_leaves_duplicates :
  let wr := Reorganize.World repo true [(zone_cs, chain_file)] (txt "y") in
  let wo := Organize.World repo [(zone_cs, merged_file "5")] in
  Reorganize.extract_eventids zone_cs (Reorganize.files wr) = [999; 1000]%N /\
  Reorganize.main wr
  = (0%N, Disk [(zone_cs, merged_file "1001")] [WroteReport; Wrote zone_cs]) /\
  Organize.ids_on_disk [zone_cs] (d_tree (snd (Reorganize.main wr))) = [1001; 1001]%N /\
  Organize.main wo = Some (1%N, Disk [(zone_cs, merged_file "1001")] [Wrote zone_cs]) /\
  ~ NoDup (Organize.ids_on_disk [zone_cs] [(zone_cs, merged_file "1001")]).
Proof.
  cbv zeta. repeat split; try (vm_compute; reflexivity).
  vm_compute. intros H. inversion H as [|? ? Hn _]. apply Hn. now left.
Qed.

(** ** Second runs that change files *)

(** C4 fails on the code.  After the run of reorganize_eventids.py on the
    file with 999 and 1000, the file holds 1001 twice; a second run computes
    1001 -> 1000 and rewrites the file.  In organize_eventids.py an
    identifier written 007 is read as 7 and assigned 1000, the pattern built
    from 7 does not match the text, and every run writes the file again
    with the same assignment. *)
Theorem second_run_changes_files :
  let wr1 := Reorganize.World repo true [(zone_cs, chain_file)] (txt "y") in
  let wr2 := Reorganize.World repo true (d_tree (snd (Reorganize.main wr1))) (txt "y") in
  let wo1 := Organize.World repo [(zone_cs, leading_zero_file)] in
  d_tree (snd (Reorganize.main wr1)) = [(zone_cs, merged_file "1001")] /\
  Reorganize.changes_of
    (fst (Reorganize.build_file_data [zone_cs] (d_tree (snd (Reorganize.main wr1)))))
  = [(zone_cs, [(1001, 1000)]%N)] /\
  Reorganize.main wr2
  = (0%N, Disk [(zone_cs, merged_file "1000")] [WroteReport; Wrote zone_cs]) /\
  Organize.main wo1
  = Some (0%N, Disk [(zone_cs, leading_zero_file)] [Wrote zone_cs]) /\
  Organize.new_eventids_of 1000 (Organize.find_eventids (split_lines leading_zero_file))
  = [(7, 1000)]%N.
Proof.
  cbv zeta. repeat split; vm_compute; reflexivity.
Qed.

(** * The extraction against the occurrences in the text *)

(** ** Numerals *)

Lemma digit_cases (c : ascii) :
  is_digit c = true ->
  In c ["0"; "1"; "2"; "3"; "4"; "5"; "6"; "7"; "8"; "9"]%char.
Proof.
  destruct c as [[] [] [] [] [] [] [] []]; vm_compute; intros H;
    try discriminate H; tauto.
Qed.

Lemma digits_are_numeral (ds : text) :
  all is_digit ds ->
  exists d : Decimal.uint, ds = digits_of_uint d /\ (ds <> [] -> d <> Decimal.Nil).
Proof.
  induction 1 as [|c ds Hc Hds [d [-> Hd]]].
  - exists Decimal.Nil. split; [reflexivity|]. intros H. now contradict H.
  - apply digit_cases in Hc. simpl in Hc.
    repeat (destruct Hc as [<-|Hc];
            [first [exists (Decimal.D0 d); split; [reflexivity|discriminate]
                   |exists (Decimal.D1 d); split; [reflexivity|discriminate]
                   |exists (Decimal.D2 d); split; [reflexivity|discriminate]
                   |exists (Decimal.D3 d); split; [reflexivity|discriminate]
                   |exists (Decimal.D4 d); split; [reflexivity|discriminate]
                   |exists (Decimal.D5 d); split; [reflexivity|discriminate]
                   |exists (Decimal.D6 d); split; [reflexivity|discriminate]
                   |exists (Decimal.D7 d); split; [reflexivity|discriminate]
                   |exists (Decimal.D8 d); split; [reflexivity|discriminate]
                   |exists (Decimal.D9 d); split; [reflexivity|discriminate]]|]).
    destruct Hc.
Qed.

Lemma numeral_nonempty (d : Decimal.uint) : d <> Decimal.Nil -> digits_of_uint d <> [].
Proof. destruct d; [intros H; now contradict H| | | | | | | | | |]; discriminate. Qed.

Lemma numeral_digits (d : Decimal.uint) : all is_digit (digits_of_uint d).
Proof. apply digits_of_uint_digits. Qed.

Lemma int_of_acc (d : Decimal.uint) :
  forall acc : positive,
    fold_left (fun a c => (a * 10 + digit_val c)%N) (digits_of_uint d) (Npos acc)
    = Npos (Pos.of_uint_acc d acc).
Proof.
  induction d; intros acc; cbn [digits_of_uint fold_left Pos.of_uint_acc];
    [reflexivity| | | | | | | | | |];
    rewrite <- IHd; f_equal;
    match goal with
    | |- context [digit_val ?c] =>
        let v := eval vm_compute in (digit_val c) in change (digit_val c) with v
    end; lia.
Qed.

(** [int] on the digits of a numeral is the numeral's value. *)
Lemma int_of_numeral (d : Decimal.uint) : int_of (digits_of_uint d) = N.of_uint d.
Proof.
  unfold int_of, N.of_uint.
  induction d; cbn [digits_of_uint fold_left Pos.of_uint];
    [reflexivity|exact IHd| | | | | | | | |];
    apply (int_of_acc d).
Qed.

(** ** Running a pattern forwards *)

Lemma m_len_eats (u : text) (st : mstate) :
  m_len (eats u st) = (m_len st + List.length u)%nat.
Proof. apply eats_fields. Qed.

Lemma m_groups_eats (u : text) (st : mstate) : m_groups (eats u st) = m_groups st.
Proof. apply eats_fields. Qed.

Lemma m_cur_eats (u : text) (st : mstate) :
  m_cur (eats u st) = option_map (fun g => rev u ++ g) (m_cur st).
Proof. apply eats_fields. Qed.

Lemma run_lits_fwd (u : text) (r : regex) :
  forall (st : mstate) (s : text),
    run (map Chr u ++ r) st (u ++ s) = run r (eats u st) s.
Proof.
  induction u as [|c u IH]; intros st s; [reflexivity|].
  change (map Chr (c :: u) ++ r) with (Chr c :: (map Chr u ++ r)).
  simpl. rewrite Ascii.eqb_refl. apply IH.
Qed.

Lemma run_cls (p : ascii -> bool) (r : regex) (st m : mstate) (s : text) :
  run (Cls p :: r) st s = Some m ->
  exists x s', s = x :: s' /\ p x = true /\ run r (eat x st) s' = Some m.
Proof.
  destruct s as [|x s']; simpl; [discriminate|].
  destruct (p x) eqn:E; [|discriminate]. intros H. now exists x, s'.
Qed.

Lemma run_star_stop (p : ascii -> bool) (r : regex) (st : mstate) (s' : text) :
  stops p s' -> run (Star p :: r) st s' = run r st s'.
Proof.
  intros Hs. rewrite run_star_eq. destruct s' as [|y s']; [reflexivity|].
  simpl in Hs. now rewrite Hs.
Qed.

Lemma eats_cons (c : ascii) (u : text) (st : mstate) :
  eats (c :: u) st = eats u (eat c st).
Proof. reflexivity. Qed.

(** A greedy repetition fails when its continuation fails after every part
    of the run it can take. *)
Lemma run_star_none (p : ascii -> bool) (r : regex) (s' : text) :
  stops p s' ->
  forall (w : text) (st : mstate),
    all p w ->
    (forall w1 y w2, w = w1 ++ y :: w2 ->
                     run r (eats (w1 ++ [y]) st) (w2 ++ s') = None) ->
    run r st (w ++ s') = None ->
    run (Star p :: r) st (w ++ s') = None.
Proof.
  intros Hs. induction w as [|y w IHw]; intros st Hw Hf H0.
  - cbn [app] in *. now rewrite run_star_stop.
  - cbn [app] in *. rewrite run_star_eq.
    inversion Hw as [|? ? Hy Hw']; subst. rewrite Hy.
    rewrite IHw; [exact H0|exact Hw'| |].
    + intros w1 z w2 E. rewrite <- eats_cons.
      apply (Hf (y :: w1) z w2). now rewrite E.
    + apply (Hf [] y w). reflexivity.
Qed.

(** A greedy repetition that can take all of [u ++ v] and whose
    continuation fails after every longer part than [u] gives what the
    continuation gives after [u]. *)
Lemma run_star_fwd (p : ascii -> bool) (r : regex) (m : mstate) (s' : text) (u : text) :
  forall (v : text) (st : mstate),
    all p u -> all p v -> stops p s' ->
    (forall v1 x v2, v = v1 ++ x :: v2 ->
                     run r (eats (u ++ v1 ++ [x]) st) (v2 ++ s') = None) ->
    run r (eats u st) (v ++ s') = Some m ->
    run (Star p :: r) st (u ++ v ++ s') = Some m.
Proof.
  induction u as [|c u IH]; intros v st Hu Hv Hs Hfail Hk.
  - cbn [app] in *. change (eats [] st) with st in Hk.
    destruct v as [|x v].
    + cbn [app] in *. now rewrite run_star_stop.
    + cbn [app] in *. rewrite run_star_eq.
      inversion Hv as [|? ? Hx Hv']; subst. rewrite Hx.
      rewrite (run_star_none p r s' Hs v (eat x st) Hv'); [exact Hk| |].
      * intros w1 y w2 E. rewrite <- eats_cons.
        apply (Hfail (x :: w1) y w2). now rewrite E.
      * apply (Hfail [] x v). reflexivity.
  - inversion Hu as [|? ? Hc Hu']; subst.
    change ((c :: u) ++ v ++ s') with (c :: (u ++ v ++ s')).
    rewrite run_star_eq, Hc.
    rewrite (IH v (eat c st) Hu' Hv Hs); [reflexivity| |exact Hk].
    intros v1 x v2 E. apply (Hfail v1 x v2 E).
Qed.

(** The usual case: the repetition takes all of [u]. *)
Lemma run_star_all (p : ascii -> bool) (r : regex) (m : mstate) (u s' : text)
      (st : mstate) :
  all p u -> stops p s' ->
  run r (eats u st) s' = Some m ->
  run (Star p :: r) st (u ++ s') = Some m.
Proof.
  intros Hu Hs Hk.
  apply (run_star_fwd p r m s' u [] st Hu (Forall_nil _) Hs); [|exact Hk].
  intros v1 x v2 E. now destruct v1.
Qed.

Lemma span_exists (p : ascii -> bool) (s : text) :
  exists u s', s = u ++ s' /\ all p u /\ stops p s'.
Proof.
  induction s as [|c s [u [s' [-> [Hu Hs]]]]].
  - exists [], []. repeat split. constructor.
  - destruct (p c) eqn:E.
    + exists (c :: u), s'. repeat split; [now constructor|exact Hs].
    + exists [], (c :: u ++ s'). repeat split; [constructor|exact E].
Qed.

Lemma span_unique (p : ascii -> bool) (u u' s s' : text) :
  all p u -> all p u' -> stops p s -> stops p s' ->
  u ++ s = u' ++ s' -> u = u' /\ s = s'.
Proof.
  intros Hu. revert u'. induction Hu as [|c u Hc Hu IH]; intros u' Hu' Hs Hs' E.
  - destruct Hu' as [|c' u' Hc' _]; [now split|].
    simpl in E. subst s. simpl in Hs. congruence.
  - destruct Hu' as [|c' u' Hc' Hu'].
    + simpl in E. subst s'. simpl in Hs'. congruence.
    + simpl in E. injection E as <- E.
      destruct (IH u' Hu' Hs Hs' E) as [-> ->]. now split.
Qed.

Lemma digit_not_space (c : ascii) : is_digit c = true -> is_space c = false.
Proof.
  intros H. apply digit_cases in H. simpl in H.
  repeat (destruct H as [<-|H]; [reflexivity|]). destruct H.
Qed.

Lemma space_not_digit (c : ascii) : is_space c = true -> is_digit c = false.
Proof.
  intros H. destruct (is_digit c) eqn:E; [|reflexivity].
  apply digit_not_space in E. congruence.
Qed.

Lemma stops_numeral (p : ascii -> bool) (d : Decimal.uint) (s : text) :
  d <> Decimal.Nil -> (forall c, is_digit c = true -> p c = false) ->
  stops p (digits_of_uint d ++ s).
Proof.
  intros Hd Hp. pose proof (numeral_digits d) as H.
  pose proof (numeral_nonempty d Hd) as Hn.
  destruct H as [|c ds Hc _]; [contradiction|]. simpl. now apply Hp.
Qed.

Lemma stops_spaces (p : ascii -> bool) (w : text) (s : text) :
  all is_space w -> (forall c, is_space c = true -> p c = false) ->
  stops p s -> stops p (w ++ s).
Proof.
  intros Hw Hp Hs. destruct Hw as [|c w Hc _]; [exact Hs|]. simpl. now apply Hp.
Qed.

Lemma run_chr_fwd (c : ascii) (r : regex) (st : mstate) (s : text) :
  run (Chr c :: r) st (c :: s) = run r (eat c st) s.
Proof. simpl. now rewrite Ascii.eqb_refl. Qed.

Lemma run_chr_fail (c : ascii) (r : regex) (st : mstate) (s : text) :
  (forall t, s <> c :: t) -> run (Chr c :: r) st s = None.
Proof.
  intros H. destruct s as [|x s]; [reflexivity|]. simpl.
  destruct (Ascii.eqb x c) eqn:E; [|reflexivity].
  apply Ascii.eqb_eq in E. subst x. exfalso. now apply (H s).
Qed.

Lemma run_cls_fwd (p : ascii -> bool) (r : regex) (st : mstate) (x : ascii) (s : text) :
  p x = true -> run (Cls p :: r) st (x :: s) = run r (eat x st) s.
Proof. intros H. simpl. now rewrite H. Qed.

(** ** The captured number [(\d+)] *)

Lemma run_number_fwd (r : regex) (st m : mstate) (d : Decimal.uint) (rest : text) :
  d <> Decimal.Nil -> stops is_digit rest ->
  run r (gclose (eats (digits_of_uint d) (gopen st))) rest = Some m ->
  run (GOpen :: Cls is_digit :: Star is_digit :: GClose :: r) st
      (digits_of_uint d ++ rest) = Some m.
Proof.
  intros Hd Hs Hk.
  pose proof (numeral_digits d) as Hall. pose proof (numeral_nonempty d Hd) as Hne.
  destruct (digits_of_uint d) as [|x ds]; [contradiction|].
  inversion Hall as [|? ? Hx Hds]; subst.
  change (run (GOpen :: ?X) st ?s) with (run X (gopen st) s).
  cbn [app]. rewrite (run_cls_fwd _ _ _ _ _ Hx).
  apply run_star_all; [exact Hds|exact Hs|]. exact Hk.
Qed.

Lemma run_number_inv (r : regex) (st m : mstate) (s : text) :
  run (GOpen :: Cls is_digit :: Star is_digit :: GClose :: r) st s = Some m ->
  exists (d : Decimal.uint) (s' : text),
    s = digits_of_uint d ++ s' /\ d <> Decimal.Nil /\
    run r (gclose (eats (digits_of_uint d) (gopen st))) s' = Some m.
Proof.
  change (run (GOpen :: ?X) st s) with (run X (gopen st) s). intros H.
  apply run_cls in H. destruct H as [x [s1 [-> [Hx H]]]].
  apply run_star in H. destruct H as [u [s' [-> [Hu H]]]].
  change (run (GClose :: ?X) ?a s') with (run X (gclose a) s') in H.
  destruct (digits_are_numeral (x :: u)) as [d [Ed Hd]]; [now constructor|].
  exists d, s'. rewrite <- Ed. split; [reflexivity|]. split; [apply Hd; discriminate|].
  exact H.
Qed.

(** The state after a prefix and the captured number. *)
Lemma number_fields (pre ds : text) (prev : option ascii) :
  let m := gclose (eats ds (gopen (eats pre (start prev)))) in
  m_groups m = [ds] /\ m_len m = List.length (pre ++ ds).
Proof.
  cbv zeta. unfold gclose. cbn [m_groups m_len].
  rewrite m_groups_eats, m_cur_eats, m_len_eats.
  unfold gopen. cbn [m_groups m_cur m_len option_map].
  rewrite m_groups_eats, m_len_eats. cbn [start m_groups m_len app].
  rewrite app_nil_r, rev_involutive, length_app. split; [reflexivity|lia].
Qed.

(** ** The named form *)

Lemma named_pattern_eq :
  named_pattern
  = map Chr (txt "EventId")
    ++ Star is_space :: Chr "=" :: Star is_space
       :: GOpen :: Cls is_digit :: Star is_digit :: GClose :: [].
Proof. reflexivity. Qed.

Lemma named_complete (s : text) (n : N) (rest : text) (prev : option ascii) :
  starts_named s n rest -> match_at named_pattern prev s <> None.
Proof.
  intros [w1 [w2 [d [-> [H1 [H2 [Hd [Hs _]]]]]]]].
  unfold match_at. rewrite named_pattern_eq, run_lits_fwd.
  erewrite run_star_all; [discriminate|exact H1|reflexivity|].
  rewrite run_chr_fwd.
  apply run_star_all; [exact H2| |].
  - apply stops_numeral; [exact Hd|apply digit_not_space].
  - apply run_number_fwd; [exact Hd|exact Hs|reflexivity].
Qed.

Lemma named_sound (prev : option ascii) (s : text) (m : mstate) :
  match_at named_pattern prev s = Some m ->
  exists consumed rest,
    s = consumed ++ rest /\ consumed <> [] /\
    m_len m = List.length consumed /\
    starts_named s (int_of (group 1 (m_groups m))) rest.
Proof.
  unfold match_at. rewrite named_pattern_eq. intros H.
  apply run_lits in H. destruct H as [s1 [-> H]].
  apply run_star in H. destruct H as [w1 [s2 [-> [Hw1 H]]]].
  apply run_chr in H. destruct H as [s3 [-> H]].
  apply run_star in H. destruct H as [w2 [s4 [-> [Hw2 H]]]].
  pose proof H as H'.
  apply run_number_inv in H'. destruct H' as [d0 [s5 [E0 [Hd0 _]]]].
  (* the digits the greedy repetition takes are all the digits there are *)
  destruct (span_exists is_digit s4) as [ds [rest [Es [Hds Hrest]]]].
  destruct (digits_are_numeral ds Hds) as [d [Ed Hd]].
  assert (Hne : ds <> []).
  { intros E. rewrite E in Es. cbn [app] in Es. rewrite Es in E0.
    pose proof (numeral_digits d0) as A. pose proof (numeral_nonempty d0 Hd0) as B.
    destruct (digits_of_uint d0) as [|x t]; [contradiction|].
    inversion A as [|? ? Hx _]. destruct rest as [|y rest']; [discriminate|].
    cbn [app] in E0. injection E0 as Ey _. simpl in Hrest. congruence. }
  specialize (Hd Hne). subst ds s4. rewrite Es in H |- *.
  remember (txt "EventId" ++ w1 ++ "="%char :: w2) as pre eqn:Epre.
  assert (Est : eats w2 (eat "=" (eats w1 (eats (txt "EventId") (start prev))))
                = eats pre (start prev)).
  { rewrite Epre. now rewrite !eats_app. }
  rewrite Est in H.
  rewrite (run_number_fwd [] (eats pre (start prev))
             (gclose (eats (digits_of_uint d) (gopen (eats pre (start prev)))))
             d rest Hd Hrest eq_refl) in H.
  injection H as <-.
  destruct (number_fields pre (digits_of_uint d) prev) as [Fg Fl].
  exists (pre ++ digits_of_uint d), rest.
  split; [rewrite Epre; now rewrite <- !app_assoc|].
  split; [rewrite Epre; discriminate|]. split; [exact Fl|].
  rewrite Fg. exists w1, w2, d.
  split; [reflexivity|]. repeat split; try assumption.
  unfold group. cbn [pred nth]. apply int_of_numeral.
Qed.

(** ** The positional forms *)

Lemma single_positional_eq :
  Reorganize.single_positional_pattern
  = map Chr (txt "[LoggerMessage(")
    ++ Star is_space
       :: GOpen :: Cls is_digit :: Star is_digit :: GClose
       :: Star is_space :: Chr "," :: [].
Proof. reflexivity. Qed.

Lemma multi_positional_eq :
  Reorganize.multi_positional_pattern
  = map Chr (txt "[LoggerMessage(")
    ++ Star is_space :: Chr nl :: Star is_space
       :: GOpen :: Cls is_digit :: Star is_digit :: GClose
       :: Star is_space :: Chr "," :: [].
Proof. reflexivity. Qed.

(** The end of both positional patterns, run forwards: the number, white
    space and the comma. *)
Lemma positional_tail_fwd (st : mstate) (d : Decimal.uint) (w2 rest : text) :
  d <> Decimal.Nil -> all is_space w2 ->
  run (GOpen :: Cls is_digit :: Star is_digit :: GClose
       :: Star is_space :: Chr "," :: []) st
      (digits_of_uint d ++ w2 ++ ","%char :: rest)
  <> None.
Proof.
  intros Hd Hw2.
  erewrite run_number_fwd; [discriminate|exact Hd| |].
  - apply stops_spaces; [exact Hw2|apply space_not_digit|reflexivity].
  - apply run_star_all; [exact Hw2|reflexivity|].
    rewrite run_chr_fwd. reflexivity.
Qed.

(** The same end, read back from a match. *)
Lemma positional_tail_inv (pre : text) (prev : option ascii) (s : text) (m : mstate) :
  run (GOpen :: Cls is_digit :: Star is_digit :: GClose
       :: Star is_space :: Chr "," :: []) (eats pre (start prev)) s = Some m ->
  exists (d : Decimal.uint) (w2 rest : text),
    s = digits_of_uint d ++ w2 ++ ","%char :: rest /\
    d <> Decimal.Nil /\ all is_space w2 /\
    m_groups m = [digits_of_uint d] /\
    m_len m = List.length (pre ++ digits_of_uint d ++ w2 ++ [","%char]).
Proof.
  intros H. apply run_number_inv in H. destruct H as [d [s1 [-> [Hd H]]]].
  apply run_star in H. destruct H as [w2 [s2 [-> [Hw2 H]]]].
  apply run_chr in H. destruct H as [rest [-> H]].
  injection H as <-.
  destruct (number_fields pre (digits_of_uint d) prev) as [Fg Fl].
  exists d, w2, rest. split; [reflexivity|]. split; [exact Hd|]. split; [exact Hw2|].
  change (eat "," ?a) with (eats [","%char] a).
  rewrite <- eats_app, m_groups_eats, m_len_eats, Fg, Fl.
  split; [reflexivity|]. rewrite !length_app. simpl. lia.
Qed.

Lemma positional_complete (s : text) (n : N) (rest : text) (prev : option ascii) :
  starts_positional s n rest ->
  match_at Reorganize.single_positional_pattern prev s <> None.
Proof.
  intros [w1 [w2 [d [-> [H1 [H2 [Hd _]]]]]]].
  unfold match_at. rewrite single_positional_eq, run_lits_fwd.
  destruct (run (GOpen :: Cls is_digit :: Star is_digit :: GClose
                 :: Star is_space :: Chr "," :: [])
                (eats w1 (eats (txt "[LoggerMessage(") (start prev)))
                (digits_of_uint d ++ w2 ++ ","%char :: rest)) as [m|] eqn:E.
  - erewrite run_star_all; [discriminate|exact H1| |exact E].
    apply stops_numeral; [exact Hd|apply digit_not_space].
  - exfalso. revert E. now apply positional_tail_fwd.
Qed.

Lemma positional_sound (prev : option ascii) (s : text) (m : mstate) :
  match_at Reorganize.single_positional_pattern prev s = Some m ->
  exists consumed rest,
    s = consumed ++ rest /\ consumed <> [] /\
    m_len m = List.length consumed /\
    starts_positional s (int_of (group 1 (m_groups m))) rest.
Proof.
  unfold match_at. rewrite single_positional_eq. intros H.
  apply run_lits in H. destruct H as [s1 [-> H]].
  apply run_star in H. destruct H as [w1 [s2 [-> [Hw1 H]]]].
  rewrite <- eats_app in H.
  apply positional_tail_inv in H.
  destruct H as [d [w2 [rest [-> [Hd [Hw2 [Fg Fl]]]]]]].
  exists ((txt "[LoggerMessage(" ++ w1) ++ digits_of_uint d ++ w2 ++ [","%char]), rest.
  split; [now rewrite <- !app_assoc|].
  split; [discriminate|]. split; [exact Fl|].
  rewrite Fg. exists w1, w2, d. split; [reflexivity|].
  repeat split; try assumption.
  unfold group. cbn [pred nth]. apply int_of_numeral.
Qed.

Lemma in_split_last (x : ascii) (l : text) :
  In x l -> exists l1 l2, l = l1 ++ x :: l2 /\ ~ In x l2.
Proof.
  induction l as [|y l IH]; [intros []|].
  intros H. destruct (in_dec ascii_dec x l) as [Hin|Hout].
  - destruct (IH Hin) as [l1 [l2 [-> Hn]]]. now exists (y :: l1), l2.
  - destruct H as [->|H]; [|contradiction]. now exists [], l.
Qed.

Lemma multiline_complete (s : text) (n : N) (rest : text) (prev : option ascii) :
  starts_multiline s n rest ->
  match_at Reorganize.multi_positional_pattern prev s <> None.
Proof.
  intros [wa [wb [w2 [d [-> [Ha [Hb [H2 [Hd _]]]]]]]]].
  (* the line feed the matcher settles on is the last one of the run *)
  destruct (in_split_last nl (wa ++ nl :: wb)) as [u [v [E Hv]]];
    [apply in_or_app; right; now left|].
  assert (Hall : all is_space (u ++ nl :: v)).
  { rewrite <- E. apply Forall_app. split; [exact Ha|]. now constructor. }
  apply Forall_app in Hall. destruct Hall as [Hu Hnv].
  inversion Hnv as [|? ? _ Hvs]; subst.
  replace (txt "[LoggerMessage(" ++ wa ++ nl :: wb ++ digits_of_uint d
           ++ w2 ++ ","%char :: rest)
    with (txt "[LoggerMessage("
          ++ u ++ (nl :: v) ++ digits_of_uint d ++ w2 ++ ","%char :: rest).
  2:{ f_equal. change (wa ++ nl :: wb ++ ?X) with (wa ++ (nl :: wb) ++ X).
      rewrite (app_assoc wa), E. now rewrite <- app_assoc. }
  unfold match_at. rewrite multi_positional_eq, run_lits_fwd.
  set (st := eats (txt "[LoggerMessage(") (start prev)).
  set (tail := digits_of_uint d ++ w2 ++ ","%char :: rest).
  assert (Hst : stops is_space tail).
  { apply stops_numeral; [exact Hd|apply digit_not_space]. }
  destruct (run (Chr nl :: Star is_space
                 :: GOpen :: Cls is_digit :: Star is_digit :: GClose
                 :: Star is_space :: Chr "," :: [])
                (eats u st) ((nl :: v) ++ tail)) as [m|] eqn:Ek.
  - erewrite (run_star_fwd is_space _ m tail u (nl :: v) st);
      [discriminate|exact Hu|now constructor|exact Hst| |exact Ek].
    intros v1 x v2 Ev. apply run_chr_fail. intros t Et.
    destruct v2 as [|y v2].
    + cbn [app] in Et. unfold tail in Et.
      pose proof (numeral_digits d) as A. pose proof (numeral_nonempty d Hd) as B.
      destruct (digits_of_uint d) as [|z ds]; [contradiction|].
      inversion A as [|? ? Hz _]. cbn [app] in Et. injection Et as Ez _.
      subst z. vm_compute in Hz. discriminate.
    + cbn [app] in Et. injection Et as Ey _. subst y.
      apply Hv. destruct v1 as [|b v1].
      * injection Ev as _ Ev. rewrite Ev. now left.
      * injection Ev as _ Ev. rewrite Ev. apply in_or_app. right. right. now left.
  - exfalso. revert Ek. cbn [app]. rewrite run_chr_fwd.
    destruct (run (GOpen :: Cls is_digit :: Star is_digit :: GClose
                   :: Star is_space :: Chr "," :: [])
                  (eats v (eat nl (eats u st))) tail) as [m|] eqn:E2.
    + erewrite run_star_all; [discriminate|exact Hvs|exact Hst|exact E2].
    + exfalso. revert E2. now apply positional_tail_fwd.
Qed.

Lemma multiline_sound (prev : option ascii) (s : text) (m : mstate) :
  match_at Reorganize.multi_positional_pattern prev s = Some m ->
  exists consumed rest,
    s = consumed ++ rest /\ consumed <> [] /\
    m_len m = List.length consumed /\
    starts_multiline s (int_of (group 1 (m_groups m))) rest.
Proof.
  unfold match_at. rewrite multi_positional_eq. intros H.
  apply run_lits in H. destruct H as [s1 [-> H]].
  apply run_star in H. destruct H as [wa [s2 [-> [Hwa H]]]].
  apply run_chr in H. destruct H as [s3 [-> H]].
  apply run_star in H. destruct H as [wb [s4 [-> [Hwb H]]]].
  assert (Est : eats wb (eat nl (eats wa (eats (txt "[LoggerMessage(") (start prev))))
                = eats (txt "[LoggerMessage(" ++ wa ++ nl :: wb) (start prev)).
  { now rewrite !eats_app. }
  rewrite Est in H. apply positional_tail_inv in H.
  destruct H as [d [w2 [rest [-> [Hd [Hw2 [Fg Fl]]]]]]].
  exists ((txt "[LoggerMessage(" ++ wa ++ nl :: wb)
          ++ digits_of_uint d ++ w2 ++ [","%char]), rest.
  split; [now rewrite <- !app_assoc|].
  split; [discriminate|]. split; [exact Fl|].
  rewrite Fg. exists wa, wb, w2, d. split; [reflexivity|].
  repeat split; try assumption.
  unfold group. cbn [pred nth]. apply int_of_numeral.
Qed.

(** ** [findall] against the occurrences *)

Lemma findall_from_0 (r : regex) (prev : option ascii) (s : text) :
  findall_from r prev 0 s =
  match match_at r prev s with
  | Some m =>
      m_groups m ::
      match s with
      | [] => []
      | c :: s' => findall_from r (Some c) (pred (m_len m)) s'
      end
  | None =>
      match s with
      | [] => []
      | c :: s' => findall_from r (Some c) 0 s'
      end
  end.
Proof. destruct s; reflexivity. Qed.

Lemma findall_from_skip (r : regex) (u : text) :
  forall (prev : option ascii) (rest : text),
  exists prev', findall_from r prev (List.length u) (u ++ rest)
                = findall_from r prev' 0 rest.
Proof.
  induction u as [|c u IH]; intros prev rest.
  - now exists prev.
  - destruct (IH (Some c) rest) as [prev' H]. exists prev'. exact H.
Qed.

(** When the matcher succeeds exactly where a form starts, [findall] lists
    the values of the form's occurrences. *)
Lemma findall_scan (r : regex) (starts : text -> N -> text -> Prop) :
  (forall prev s m, match_at r prev s = Some m ->
     exists consumed rest,
       s = consumed ++ rest /\ consumed <> [] /\
       m_len m = List.length consumed /\
       starts s (int_of (group 1 (m_groups m))) rest) ->
  (forall prev s n rest, starts s n rest -> match_at r prev s <> None) ->
  forall (k : nat) (s : text), (List.length s <= k)%nat ->
  forall prev : option ascii,
    Scan starts s (ids_of (findall_from r prev 0 s)).
Proof.
  intros Hsound Hcomplete. induction k as [|k IH]; intros s Hlen prev;
    rewrite findall_from_0.
  - destruct s; [|simpl in Hlen; lia].
    destruct (match_at r prev []) as [m|] eqn:E; [|constructor].
    destruct (Hsound _ _ _ E) as [consumed [rest [Es [Hne _]]]].
    destruct consumed; [contradiction|discriminate].
  - destruct (match_at r prev s) as [m|] eqn:E.
    + destruct (Hsound _ _ _ E) as [consumed [rest [Es [Hne [Hl Hst]]]]].
      destruct consumed as [|c t]; [contradiction|].
      subst s. cbn [app] in *. rewrite Hl. cbn [List.length pred].
      destruct (findall_from_skip r t (Some c) rest) as [prev' ->].
      change (ids_of (?g :: ?l)) with (int_of (group 1 g) :: ids_of l).
      apply Scan_take with (rest := rest); [exact Hst|].
      apply IH. simpl in Hlen. rewrite length_app in Hlen. lia.
    + destruct s as [|c s]; [constructor|].
      apply Scan_skip.
      * intros n rest Hst. now apply (Hcomplete prev _ n rest Hst).
      * apply IH. simpl in Hlen. lia.
Qed.

Lemma findall_named (s : text) :
  Scan starts_named s (ids_of (findall named_pattern s)).
Proof.
  apply (findall_scan named_pattern starts_named named_sound)
    with (k := List.length s); [|lia].
  intros prev s0 n rest. apply named_complete.
Qed.

Lemma findall_positional (s : text) :
  Scan starts_positional s (ids_of (findall Reorganize.single_positional_pattern s)).
Proof.
  apply (findall_scan _ starts_positional positional_sound)
    with (k := List.length s); [|lia].
  intros prev s0 n rest. apply positional_complete.
Qed.

Lemma findall_multiline (s : text) :
  Scan starts_multiline s (ids_of (findall Reorganize.multi_positional_pattern s)).
Proof.
  apply (findall_scan _ starts_multiline multiline_sound)
    with (k := List.length s); [|lia].
  intros prev s0 n rest. apply multiline_complete.
Qed.

(** ** The occurrences of the named form are determined by the text *)

Lemma starts_named_functional (s : text) (n n' : N) (rest rest' : text) :
  starts_named s n rest -> starts_named s n' rest' -> n = n' /\ rest = rest'.
Proof.
  intros [w1 [w2 [d [E [H1 [H2 [Hd [Hs Hn]]]]]]]]
         [w1' [w2' [d' [E' [H1' [H2' [Hd' [Hs' Hn']]]]]]]].
  rewrite E in E'. apply app_inv_head in E'.
  assert (Heq : forall t : text, stops is_space ("="%char :: t)) by reflexivity.
  destruct (span_unique is_space w1 w1' _ _ H1 H1' (Heq _) (Heq _) E') as [-> E2].
  injection E2 as E2.
  destruct (span_unique is_space w2 w2' _ _ H2 H2'
              (stops_numeral _ d _ Hd digit_not_space)
              (stops_numeral _ d' _ Hd' digit_not_space) E2) as [-> E3].
  destruct (span_unique is_digit _ _ _ _ (numeral_digits d) (numeral_digits d')
              Hs Hs' E3) as [Ed ->].
  split; [|reflexivity].
  rewrite Hn, Hn', <- !int_of_numeral. now rewrite Ed.
Qed.

Lemma starts_named_nonempty (n : N) (rest : text) : ~ starts_named [] n rest.
Proof. intros [w1 [w2 [d [E _]]]]. discriminate. Qed.

Lemma scan_named_functional (s : text) (l l' : list N) :
  Scan starts_named s l -> Scan starts_named s l' -> l = l'.
Proof.
  intros H. revert l'. induction H as [|c s l Hno _ IH|s n rest l Hst _ IH];
    intros l' H'.
  - inversion H' as [| |? ? ? ? Hst' _]; subst; [reflexivity|].
    now apply starts_named_nonempty in Hst'.
  - inversion H' as [|? ? ? _ Hrest|? ? ? ? Hst' _]; subst.
    + now apply IH.
    + now apply Hno in Hst'.
  - inversion H' as [|? ? ? Hno _|? n' rest' l'' Hst' Hrest']; subst.
    + now apply starts_named_nonempty in Hst.
    + now apply Hno in Hst.
    + destruct (starts_named_functional _ _ _ _ _ Hst Hst') as [-> ->].
      f_equal. now apply IH.
Qed.

(** ** [search] is the first match of [findall] *)

Lemma search_from_eq (r : regex) (prev : option ascii) (s : text) :
  search_from r prev s =
  match match_at r prev s with
  | Some m => Some (m_groups m)
  | None =>
      match s with
      | [] => None
      | c :: s' => search_from r (Some c) s'
      end
  end.
Proof. destruct s; reflexivity. Qed.

Lemma search_first (r : regex) (s : text) :
  forall prev : option ascii,
    search_from r prev s = hd_error (findall_from r prev 0 s).
Proof.
  induction s as [|c s IH]; intros prev;
    rewrite search_from_eq, findall_from_0;
    destruct (match_at r prev _); try reflexivity.
  apply IH.
Qed.

(** ** The occurrences of the positional forms are determined by the text *)

Lemma starts_positional_functional (s : text) (n n' : N) (rest rest' : text) :
  starts_positional s n rest -> starts_positional s n' rest' ->
  n = n' /\ rest = rest'.
Proof.
  intros [w1 [w2 [d [E [H1 [H2 [Hd Hn]]]]]]]
         [w1' [w2' [d' [E' [H1' [H2' [Hd' Hn']]]]]]].
  rewrite E in E'. apply app_inv_head in E'.
  assert (Hc : forall t : text, stops is_space (","%char :: t)) by reflexivity.
  assert (Hc' : forall t : text, stops is_digit (","%char :: t)) by reflexivity.
  destruct (span_unique is_space w1 w1' _ _ H1 H1'
              (stops_numeral _ d _ Hd digit_not_space)
              (stops_numeral _ d' _ Hd' digit_not_space) E') as [-> E2].
  destruct (span_unique is_digit _ _ _ _ (numeral_digits d) (numeral_digits d')
              (stops_spaces _ w2 _ H2 space_not_digit (Hc' _))
              (stops_spaces _ w2' _ H2' space_not_digit (Hc' _)) E2) as [Ed E3].
  destruct (span_unique is_space w2 w2' _ _ H2 H2' (Hc _) (Hc _) E3) as [-> E4].
  injection E4 as ->.
  split; [|reflexivity].
  rewrite Hn, Hn', <- !int_of_numeral. now rewrite Ed.
Qed.

Lemma starts_positional_nonempty (n : N) (rest : text) : ~ starts_positional [] n rest.
Proof. intros [w1 [w2 [d [E _]]]]. discriminate. Qed.

(** A multi-line occurrence is a positional occurrence. *)
Lemma multiline_is_positional (s : text) (n : N) (rest : text) :
  starts_multiline s n rest -> starts_positional s n rest.
Proof.
  intros [wa [wb [w2 [d [E [Ha [Hb [H2 [Hd Hn]]]]]]]]].
  exists (wa ++ nl :: wb), w2, d.
  split; [|split; [|split; [exact H2|split; [exact Hd|exact Hn]]]].
  - rewrite E. f_equal. now rewrite <- app_assoc.
  - apply Forall_app. split; [exact Ha|]. constructor; [reflexivity|exact Hb].
Qed.

Lemma starts_multiline_functional (s : text) (n n' : N) (rest rest' : text) :
  starts_multiline s n rest -> starts_multiline s n' rest' ->
  n = n' /\ rest = rest'.
Proof.
  intros H H'. apply multiline_is_positional in H, H'.
  exact (starts_positional_functional _ _ _ _ _ H H').
Qed.

Lemma starts_multiline_nonempty (n : N) (rest : text) : ~ starts_multiline [] n rest.
Proof. intros H. now apply multiline_is_positional, starts_positional_nonempty in H. Qed.

Lemma scan_functional (starts : text -> N -> text -> Prop) :
  (forall s n n' rest rest',
      starts s n rest -> starts s n' rest' -> n = n' /\ rest = rest') ->
  (forall n rest, ~ starts [] n rest) ->
  forall (s : text) (l l' : list N), Scan starts s l -> Scan starts s l' -> l = l'.
Proof.
  intros Hfun Hnil s l l' H. revert l'.
  induction H as [|c s l Hno _ IH|s n rest l Hst _ IH]; intros l' H'.
  - inversion H' as [| |? ? ? ? Hst' _]; subst; [reflexivity|].
    now apply Hnil in Hst'.
  - inversion H' as [|? ? ? _ Hrest|? ? ? ? Hst' _]; subst.
    + now apply IH.
    + now apply Hno in Hst'.
  - inversion H' as [|? ? ? Hno _|? n' rest' l'' Hst' Hrest']; subst.
    + now apply Hnil in Hst.
    + now apply Hno in Hst.
    + destruct (Hfun _ _ _ _ _ Hst Hst') as [-> ->].
      f_equal. now apply IH.
Qed.

(** The list of the occurrences of each form is the one the matcher
    finds, and no other. *)
Lemma scan_named_iff (s : text) (l : list N) :
  Scan starts_named s l <-> l = ids_of (findall named_pattern s).
Proof.
  split; [|intros ->; apply findall_named].
  intros H. exact (scan_named_functional _ _ _ H (findall_named s)).
Qed.

Lemma scan_positional_iff (s : text) (l : list N) :
  Scan starts_positional s l
  <-> l = ids_of (findall Reorganize.single_positional_pattern s).
Proof.
  split; [|intros ->; apply findall_positional].
  intros H.
  exact (scan_functional _ starts_positional_functional starts_positional_nonempty
                         _ _ _ H (findall_positional s)).
Qed.

Lemma scan_multiline_iff (s : text) (l : list N) :
  Scan starts_multiline s l
  <-> l = ids_of (findall Reorganize.multi_positional_pattern s).
Proof.
  split; [|intros ->; apply findall_multiline].
  intros H.
  exact (scan_functional _ starts_multiline_functional starts_multiline_nonempty
                         _ _ _ H (findall_multiline s)).
Qed.

(** ** What the extractors return *)

(** The claim of C9 as stated fails on the scan of organize_eventids.py: on
    a file whose lines hold 9, 5 and 9 in named form and 7 in positional
    form it yields 9, 5, 9, in line order with the repeat and without the
    7, where the sorted set of the identifiers found is 5, 7, 9. *)
Lemma organize_scan_not_sorted_set :
  map snd (Organize.find_eventids (split_lines unsorted_file)) = [9; 5; 9]%N /\
  Reorganize.extract_eventids_text unsorted_file = [5; 7; 9]%N /\
  ~ StronglySorted N.lt (map snd (Organize.find_eventids (split_lines unsorted_file))) /\
  ~ NoDup (map snd (Organize.find_eventids (split_lines unsorted_file))) /\
  ~ In 7%N (map snd (Organize.find_eventids (split_lines unsorted_file))).
Proof.
  split; [vm_compute; reflexivity|]. split; [vm_compute; reflexivity|].
  replace (map snd (Organize.find_eventids (split_lines unsorted_file)))
    with [9; 5; 9]%N by (vm_compute; reflexivity).
  split; [|split].
  - intros H. inversion H as [|? ? _ Hall]. inversion Hall as [|? ? Hlt _]. lia.
  - intros H. inversion H as [|? ? Hn _]. apply Hn. right. now left.
  - simpl. intros [H|[H|[H|[]]]]; discriminate.
Qed.

Lemma find_eventids_values (lines : list text) (found : list (list N)) :
  Forall2 (fun line l => Scan starts_named line l /\ (List.length l <= 1)%nat)
          lines found ->
  forall k : nat,
    map snd
      (flat_map (fun e =>
         match search named_pattern (snd e) with
         | Some gs => [(fst e, int_of (group 1 gs))]
         | None => []
         end) (combine (seq k (List.length lines)) lines))
    = List.concat found.
Proof.
  induction 1 as [|line l lines found [Hl Hlen] _ IH]; intros k; [reflexivity|].
  cbn [List.length seq combine flat_map List.concat snd fst].
  rewrite map_app, (IH (S k)). f_equal.
  pose proof (scan_named_functional _ _ _ Hl (findall_named line)) as E.
  unfold search. rewrite search_first. fold (findall named_pattern line).
  destruct (findall named_pattern line) as [|gs [|gs' L]]; cbn in E |- *.
  - now subst l.
  - now subst l.
  - subst l. simpl in Hlen. lia.
Qed.

(** C9, amended: in reorganize_eventids.py the extractor returns a strictly
    ascending list (sorted, every value once) whose members are exactly the
    values of the occurrences of the named form, of the positional form and
    of the multi-line positional form in the text, whichever forms occur;
    the list of the occurrences of each form is determined by the text.
    The scan of organize_eventids.py sees the named form only and neither
    sorts nor removes repeats: on a file of which every line holds at most
    one named-form occurrence it yields the values of these occurrences in
    line order. *)
Theorem identifier_extraction :
  (forall content : text,
      exists named positional multiline : list N,
        (forall l, Scan starts_named content l <-> l = named) /\
        (forall l, Scan starts_positional content l <-> l = positional) /\
        (forall l, Scan starts_multiline content l <-> l = multiline) /\
        StronglySorted N.lt (Reorganize.extract_eventids_text content) /\
        forall n : N,
          In n (Reorganize.extract_eventids_text content) <->
          In n named \/ In n positional \/ In n multiline) /\
  (forall (lines : list text) (found : list (list N)),
      Forall2 (fun line l => Scan starts_named line l /\ (List.length l <= 1)%nat)
              lines found ->
      map snd (Organize.find_eventids lines) = List.concat found).
Proof.
  split.
  - intros content.
    exists (ids_of (findall named_pattern content)),
           (ids_of (findall Reorganize.single_positional_pattern content)),
           (ids_of (findall Reorganize.multi_positional_pattern content)).
    split; [intros l; apply scan_named_iff|].
    split; [intros l; apply scan_positional_iff|].
    split; [intros l; apply scan_multiline_iff|].
    split; [apply extract_eventids_strict|].
    intros n. unfold Reorganize.extract_eventids_text. cbv zeta.
    rewrite sorted_set_in. simpl. rewrite !in_app_iff. tauto.
  - intros lines found H. unfold Organize.find_eventids, enumerate.
    apply (find_eventids_values lines found H 0).
Qed.

Lemma identifier_extraction_witness :
  map snd (Organize.find_eventids (split_lines descending_file)) = List.concat [[9]; [5]]%N.
Proof.
  apply (proj2 identifier_extraction).
  constructor; [|constructor; [|constructor]].
  - split; [|simpl; lia].
    replace [9%N]
      with (ids_of (findall named_pattern
                      (txt "[LoggerMessage(EventId = 9, Level = LogLevel.Debug)]")))
      by (vm_compute; reflexivity).
    apply findall_named.
  - split; [|simpl; lia].
    replace [5%N]
      with (ids_of (findall named_pattern
                      (txt "[LoggerMessage(EventId = 5, Level = LogLevel.Debug)]")))
      by (vm_compute; reflexivity).
    apply findall_named.
Defined.

(** ** The exit status of the verification pass *)

(** The claim of C6 as stated fails: the verification pass of
    organize_eventids.py extracts the named form only.  Two files that both
    carry the identifier 7 in positional form are left as they are, and the
    run exits with status 0 although 7 occurs in both. *)
Lemma positional_collision_undetected :
  Organize.main (Organize.World repo positional_tree)
  = Some (0%N, Disk positional_tree []) /\
  Reorganize.extract_eventids zone_cs positional_tree = [7]%N /\
  Reorganize.extract_eventids client_cs positional_tree = [7]%N.
Proof. repeat split; vm_compute; reflexivity. Qed.

Lemma scan_files_findall (t : tree) (paths : list path) :
  ScanFiles starts_named t paths
    (map (fun p => ids_of (findall named_pattern (read_text p t))) paths).
Proof.
  unfold ScanFiles. induction paths as [|p paths IH]; simpl; constructor.
  - apply findall_named.
  - exact IH.
Qed.

Lemma scan_files_functional (t : tree) (paths : list path) (found found' : list (list N)) :
  ScanFiles starts_named t paths found -> ScanFiles starts_named t paths found' ->
  found = found'.
Proof.
  unfold ScanFiles. intros H. revert found'.
  induction H as [|p l paths found Hl _ IH]; intros found' H';
    inversion H' as [|? l' ? found'' Hl' Hrest]; subst; [reflexivity|].
  f_equal; [now apply (scan_named_functional _ _ _ Hl Hl')|now apply IH].
Qed.

(** C6, amended: the verification pass of organize_eventids.py reads every
    scanned file again from the disk the rewriting loop left, and the run
    exits with status 1 exactly when some value occurs more than once among
    the named-form occurrences of these files, and with status 0 otherwise.
    Identifiers in positional form are not extracted, so a collision among
    them is not reported. *)
Theorem verification_exit_status (w : Organize.world) :
  exists (status : N) (file_assignments : list (path * Organize.assignment))
         (counters : list (string * N)) (found : list (list N)),
    let cs_files := scan (Organize.snapdog_dir w) (Organize.files w) in
    let d := Organize.process_files file_assignments (Disk (Organize.files w) []) in
    Organize.assign_files (sorted path_leb cs_files) [] []
    = Some (file_assignments, counters) /\
    Organize.main w = Some (status, d) /\
    (forall found', ScanFiles starts_named (d_tree d) cs_files found' <-> found' = found) /\
    (status = 1%N <-> ~ NoDup (List.concat found)) /\
    (status = 0%N <-> NoDup (List.concat found)).
Proof.
  destruct (organize_assign_files_total
              (sorted path_leb (scan (Organize.snapdog_dir w) (Organize.files w)))
              [] []) as [[fa cc] Hfa].
  set (cs_files := scan (Organize.snapdog_dir w) (Organize.files w)) in *.
  set (d := Organize.process_files fa (Disk (Organize.files w) [])).
  set (found := map (fun p => ids_of (findall named_pattern (read_text p (d_tree d))))
                    cs_files).
  assert (Hids : Organize.ids_on_disk cs_files (d_tree d) = List.concat found).
  { unfold Organize.ids_on_disk, found. apply flat_map_concat_map. }
  pose proof (collect_nodup (Organize.ids_on_disk cs_files (d_tree d))) as Hc.
  assert (Hm : Organize.main w
               = match Organize.duplicates cs_files (d_tree d) with
                 | _ :: _ => Some (1%N, d)
                 | [] => Some (0%N, d)
                 end).
  { unfold Organize.main. fold cs_files. now rewrite Hfa. }
  unfold Organize.duplicates in Hm. rewrite Hids in *.
  assert (Hf : forall found', ScanFiles starts_named (d_tree d) cs_files found' <->
                              found' = found).
  { intros found'. split; [|intros ->; apply scan_files_findall].
    intros H'. apply (scan_files_functional (d_tree d) cs_files); [exact H'|].
    apply scan_files_findall. }
  destruct (snd (Organize.collect (List.concat found))) as [|x l] eqn:Hd.
  - assert (Hn : NoDup (List.concat found)) by now apply Hc.
    exists 0%N, fa, cc, found. cbv zeta.
    split; [exact Hfa|]. split; [exact Hm|]. split; [exact Hf|]. split.
    + split; [discriminate|contradiction].
    + split; [now intros _|reflexivity].
  - assert (Hn : ~ NoDup (List.concat found)) by (intros H; apply Hc in H; discriminate).
    exists 1%N, fa, cc, found. cbv zeta.
    split; [exact Hfa|]. split; [exact Hm|]. split; [exact Hf|]. split.
    + split; [now intros _|reflexivity].
    + split; [discriminate|contradiction].
Qed.
